(** * Euphoriabot REST backend (src/api.py): a shallow embedding

    The backend is a set of request handlers over three pieces of state:
    the PostgreSQL tables reached through the global connection pool
    [db_pool], the upload directory on disk, and the Telegram Bot API
    reached over HTTP.  Each handler is embedded as a function from the
    state of the world to an outcome (a JSON-like value or the raised
    [HTTPException]) and the next state of the world.

    Conventions of the embedding:
    - Python [int] is [Z]; [str] is [string], read as the UTF-8 bytes of
      the text.  The handlers only search for ASCII needles (the newline,
      "/", "image/", "/posters/", ...), and an ASCII byte never occurs
      inside a multi-byte UTF-8 sequence, so splitting and prefix tests on
      bytes agree with those on code points.
    - a nullable column or an [Optional] field is an [option];
    - [created_at] is a timestamp, kept as a [Z] (the handlers only copy it
      and the store orders by it);
    - every SQL statement sent to the store, every file-system write and
      every HTTP request to Telegram is recorded, so that "no access" is a
      statement about the state;
    - the store and the disk always answer: a failure of the database
      driver or of the file system, which the handlers turn into a 500 in
      their [except Exception] clause, has no counterpart here.  The
      failures of the Telegram requests are modelled, since the proxy
      distinguishes them. *)

From Stdlib Require Import ZArith List String Ascii Bool Lia Permutation.
From Stdlib Require Import DecimalString Sorted.
From stdpp Require Import base gmap strings list.

Import ListNotations.
Local Open Scope string_scope.
Local Open Scope Z_scope.

(** ** Python string primitives used by the handlers *)

(** [s.startswith(p)] *)
Definition startswith (s p : string) : bool := String.prefix p s.

(** The first occurrence of character [c] in [s]: the text before it and
    the text after it. *)
Fixpoint break_at (c : ascii) (s : string) : option (string * string) :=
  match s with
  | EmptyString => None
  | String a s' =>
      if Ascii.eqb a c then Some (EmptyString, s')
      else match break_at c s' with
           | Some (h, t) => Some (String a h, t)
           | None => None
           end
  end.

(** [s.split(c, 1)]: at most one split, at the first occurrence of [c].
    The result always has one or two elements, also for the empty string,
    for which Python returns [['']]. *)
Definition split1 (c : ascii) (s : string) : list string :=
  match break_at c s with
  | Some (h, t) => [h; t]
  | None => [s]
  end.

(** The newline character ['\n']. *)
Definition newline : ascii := ascii_of_nat 10.

(** [x or d] on an optional string: [None] and [""] are both falsy. *)
Definition or_else (x : option string) (d : string) : string :=
  match x with
  | Some s => if String.eqb s "" then d else s
  | None => d
  end.

(** [x or ""] *)
Definition or_empty (x : option string) : string := or_else x "".

(** Truthiness of an optional string ([not x] is its negation). *)
Definition truthy (x : option string) : bool :=
  match x with
  | Some s => negb (String.eqb s "")
  | None => false
  end.

(** ** Outcomes: a value or a raised [HTTPException] *)

Record HTTPException := { status_code : Z; detail : string }.

Inductive Result (A : Type) : Type :=
| Ok (a : A)
| Raise (e : HTTPException).
Arguments Ok {A} a.
Arguments Raise {A} e.

(** The error taxonomy of the HTTP surface: which signal a status code
    stands for. *)
Inductive Signal :=
| InvalidArgument | PermissionDenied | NotFound | Unavailable | InternalError.

Definition signal_of (status : Z) : option Signal :=
  if status =? 400 then Some InvalidArgument
  else if status =? 403 then Some PermissionDenied
  else if status =? 404 then Some NotFound
  else if status =? 503 then Some Unavailable
  else if status =? 500 then Some InternalError
  else None.

Definition signals {A} (r : Result A) (s : Signal) : Prop :=
  match r with
  | Ok _ => False
  | Raise e => signal_of (status_code e) = Some s
  end.

(** ** Rows of the two tables *)

Module Poster.
Record t := {
    id : Z;
    file_id : string;
    caption : option string;
    ticket_url : option string;
    venue_map_file_id : option string;
    created_at : Z;
    is_active : bool
  }.
End Poster.

Module Story.
Record t := {
    id : Z;
    file_id : string;
    caption : option string;
    slot_number : option Z;
    order_num : option Z;
    created_at : Z;
    is_active : bool
  }.
End Story.

(** Request bodies: [StoryCreate] and [StoryUpdate]. *)
Module StoryCreate.
Record t := {
    file_id : string;
    caption : option string;
    order_num : Z
  }.
End StoryCreate.

Module StoryUpdate.
Record t := {
    caption : option string;
    order_num : option Z;
    is_active : option bool
  }.
End StoryUpdate.

(** ** Response dictionaries *)

(** The dictionaries built by [get_posters] and [get_latest_poster]. *)
Module PosterView.
Record t := {
    id : Z;
    file_id : string;
    photo_url : string;
    caption : string;
    title : string;
    subtitle : string;
    ticket_url : option string;
    venue_map_file_id : option string;
    created_at : Z;
    is_active : bool
  }.
End PosterView.

(** The dictionaries built by [get_stories]. *)
Module StoryView.
Record t := {
    id : Z;
    file_id : string;
    photo_url : string;
    caption : option string;
    slot_number : option Z;
    created_at : Z;
    is_active : bool
  }.
End StoryView.

(** The dictionary built by [create_story] and [update_story] from the
    [RETURNING id, file_id, caption, order_num, created_at, is_active]
    row. *)
Module StoryOut.
Record t := {
    id : Z;
    file_id : string;
    caption : option string;
    order_num : option Z;
    created_at : Z;
    is_active : bool
  }.
End StoryOut.

(** The dictionary built by [create_story_in_slot]. *)
Module SlotOut.
Record t := {
    id : Z;
    file_id : string;
    caption : option string;
    slot_number : option Z;
    created_at : Z;
    is_active : bool
  }.
End SlotOut.

(** The dictionary built by [upload_story_photo]. *)
Module UploadOut.
Record t := {
  success : bool;
  photo_url : string;
  filename : string
}.
End UploadOut.

(** ** The world the handlers run in *)

(** One assignment of the [SET] list that [update_story] assembles. *)
Inductive Assignment :=
| SetCaption (c : string)
| SetOrderNum (n : Z)
| SetIsActive (b : bool).

(** The SQL statements the handlers send, in the order of the source. *)
Inductive Stmt :=
| SelectActivePosters
| SelectLatestPoster
| SelectPoster (poster_id : Z)
| SelectActiveStories
| InsertStory (file_id : string) (caption : option string) (order_num : Z)
| UpdateStory (updates : list Assignment) (story_id : Z)
| DeleteStory (story_id : Z)
| DeactivateSlot (slot_number : Z)
| InsertStoryInSlot (file_id : string) (caption : option string) (slot_number : Z).

(** The store: the two tables, the serial that numbers new stories, the
    value of [now()] that stamps them, and the statements received so
    far (newest last). *)
Record DB := {
  posters : list Poster.t;
  stories : list Story.t;
  stories_id_seq : Z;
  clock : Z;
  statements : list Stmt
}.

(** The store after statement [q] has left table [stories] as [rows] and
    the serial at [seq]. *)
Definition executed (q : Stmt) (rows : list Story.t) (seq : Z) (d : DB) : DB :=
  {| posters := posters d;
     stories := rows;
     stories_id_seq := seq;
     clock := clock d;
     statements := statements d ++ [q] |}.

(** A read-only statement. *)
Definition queried (q : Stmt) (d : DB) : DB :=
  executed q (stories d) (stories_id_seq d) d.

(** An HTTP response of the Telegram Bot API.  [json] is the outcome of
    [.json()] as far as [get_photo] reads it: [inl msg] when decoding
    raises an exception with text [msg], else the truthiness of the ["ok"]
    member and the ["result"] member when present, itself holding its
    ["file_path"] member when present. *)
Record Response := {
  resp_status_code : Z;
  content : list Byte.byte;
  json : string + (bool * option (option string))
}.

(** An uploaded file of a multipart request. *)
Record UploadFile := {
  filename : option string;
  content_type : option string;
  file : list Byte.byte
}.

(** A [StreamingResponse]: the chunks of the body, the media type and the
    extra headers. *)
Record StreamingResponse := {
  body : list (list Byte.byte);
  media_type : string;
  headers : list (string * string)
}.

(** The state of the world: the pool ([None] while it is not initialised),
    the directories and files on disk, and the URLs requested from
    Telegram so far (newest last). *)
Record World := {
  db_pool : option DB;
  directories : gset string;
  files : gmap string (list Byte.byte);
  requests : list string
}.

Definition with_db (d : DB) (w : World) : World :=
  {| db_pool := Some d;
     directories := directories w;
     files := files w;
     requests := requests w |}.

Definition with_request (url : string) (w : World) : World :=
  {| db_pool := db_pool w;
     directories := directories w;
     files := files w;
     requests := requests w ++ [url] |}.

Definition http_error {A} (status : Z) (msg : string) : Result A :=
  Raise {| status_code := status; detail := msg |}.

(** ** [ORDER BY] *)

Section Sorting.
Context {A : Type} (le : A -> A -> bool).

Fixpoint insert_sorted (x : A) (l : list A) : list A :=
    match l with
    | [] => [x]
    | y :: l' => if le x y then x :: l else y :: insert_sorted x l'
    end.

  (** A stable insertion sort: rows that compare equal keep the order of
      the table. *)
Fixpoint order_by (l : list A) : list A :=
    match l with
    | [] => []
    | x :: l' => insert_sorted x (order_by l')
    end.
End Sorting.

(** [ORDER BY created_at DESC] *)
Definition created_at_desc (a b : Poster.t) : bool :=
  Poster.created_at b <=? Poster.created_at a.

(** [ORDER BY slot_number ASC]: PostgreSQL puts NULL last in ascending
    order. *)
Definition slot_number_asc (a b : Story.t) : bool :=
  match Story.slot_number a, Story.slot_number b with
  | Some x, Some y => x <=? y
  | Some _, None => true
  | None, Some _ => false
  | None, None => true
  end.

(** ** The statements on table [stories] *)

Definition apply_assignment (r : Story.t) (a : Assignment) : Story.t :=
  match a with
  | SetCaption c =>
      {| Story.id := Story.id r; Story.file_id := Story.file_id r;
         Story.caption := Some c; Story.slot_number := Story.slot_number r;
         Story.order_num := Story.order_num r;
         Story.created_at := Story.created_at r;
         Story.is_active := Story.is_active r |}
  | SetOrderNum n =>
      {| Story.id := Story.id r; Story.file_id := Story.file_id r;
         Story.caption := Story.caption r; Story.slot_number := Story.slot_number r;
         Story.order_num := Some n;
         Story.created_at := Story.created_at r;
         Story.is_active := Story.is_active r |}
  | SetIsActive b =>
      {| Story.id := Story.id r; Story.file_id := Story.file_id r;
         Story.caption := Story.caption r; Story.slot_number := Story.slot_number r;
         Story.order_num := Story.order_num r;
         Story.created_at := Story.created_at r;
         Story.is_active := b |}
  end.

(** [UPDATE stories SET <updates> WHERE id = story_id]: the new table. *)
Definition sql_update (updates : list Assignment) (story_id : Z)
    (rows : list Story.t) : list Story.t :=
  map (fun r => if Story.id r =? story_id
                then fold_left apply_assignment updates r else r) rows.

(** [DELETE FROM stories WHERE id = story_id]: the new table. *)
Definition sql_delete (story_id : Z) (rows : list Story.t) : list Story.t :=
  List.filter (fun r => negb (Story.id r =? story_id)) rows.

Definition in_active_slot (slot_number : Z) (r : Story.t) : bool :=
  match Story.slot_number r with
  | Some s => (s =? slot_number) && Story.is_active r
  | None => false
  end.

(** [UPDATE stories SET is_active = false WHERE slot_number = $1 AND
    is_active = true]: the new table. *)
Definition sql_deactivate_slot (slot_number : Z) (rows : list Story.t) : list Story.t :=
  map (fun r => if in_active_slot slot_number r
                then apply_assignment r (SetIsActive false) else r) rows.

(** ** The handlers *)

Section Handlers.

(** The process configuration, read from the environment at start-up. *)
Variable ADMIN_IDS : gset Z.
Variable BOT_TOKEN : string.

(** The column defaults of table [stories] for the two columns that some
    [INSERT] of the source leaves out; the schema is not part of the
    source file. *)
Variable slot_number_default : option Z.
Variable order_num_default : option Z.

(** [Path(name).suffix] of pathlib. *)
Variable suffix : string -> string.

(** The Telegram Bot API as seen through [client.get(url)]: [inl msg] when
    the request raises an exception with text [msg]. *)
Variable http_get : string -> string + Response.

Definition is_admin (user_id : Z) : bool := bool_decide (user_id ∈ ADMIN_IDS).

(** *** Photo URLs *)

(** [file_id if file_id.startswith('/') else f'/{file_id}'] *)
Definition with_leading_slash (file_id : string) : string :=
  if startswith file_id "/" then file_id else "/" ++ file_id.

(** The local-file test of [get_posters] and [get_latest_poster]. *)
Definition poster_is_local_file (file_id : string) : bool :=
  startswith file_id "/posters/" || startswith file_id "posters/".

Definition poster_photo_url (file_id : string) : string :=
  if poster_is_local_file file_id then with_leading_slash file_id
  else "/photo/" ++ file_id.

(** The local-file test of [get_stories]. *)
Definition story_is_local_file (file_id : string) : bool :=
  startswith file_id "/uploads/" || startswith file_id "uploads/".

Definition story_photo_url (file_id : string) : string :=
  if story_is_local_file file_id then with_leading_slash file_id
  else "/photo/" ++ file_id.

(** *** Posters *)

(** The fallback title of the source, "Мероприятие". *)
Definition default_title : string := "Мероприятие".

(** [lines[0] if lines else "Мероприятие"] *)
Definition title_of (lines : list string) : string :=
  match lines with
  | [] => default_title
  | l0 :: _ => l0
  end.

(** [lines[1] if len(lines) > 1 else ""] *)
Definition subtitle_of (lines : list string) : string :=
  if (1 <? Z.of_nat (length lines)) then nth 1 lines "" else "".

(** The dictionary built for one row by [get_posters] and
    [get_latest_poster]. *)
Definition poster_view (row : Poster.t) : PosterView.t :=
  let file_id := Poster.file_id row in
  let caption := or_empty (Poster.caption row) in
  let lines := split1 newline caption in
  {| PosterView.id := Poster.id row;
     PosterView.file_id := file_id;
     PosterView.photo_url := poster_photo_url file_id;
     PosterView.caption := caption;
     PosterView.title := title_of lines;
     PosterView.subtitle := subtitle_of lines;
     PosterView.ticket_url := Poster.ticket_url row;
     PosterView.venue_map_file_id := Poster.venue_map_file_id row;
     PosterView.created_at := Poster.created_at row;
     PosterView.is_active := Poster.is_active row |}.

(** [SELECT ... FROM posters WHERE is_active = true ORDER BY created_at DESC] *)
Definition active_posters (d : DB) : list Poster.t :=
  order_by created_at_desc (List.filter Poster.is_active (posters d)).

(** [GET /posters] *)
Definition get_posters (w : World) : Result (list PosterView.t) * World :=
  match db_pool w with
  | None => (http_error 503 "Database not available", w)
  | Some d =>
      (Ok (map poster_view (active_posters d)),
       with_db (queried SelectActivePosters d) w)
  end.

(** [GET /posters/latest] *)
Definition get_latest_poster (w : World) : Result PosterView.t * World :=
  match db_pool w with
  | None => (http_error 503 "Database not available", w)
  | Some d =>
      let w' := with_db (queried SelectLatestPoster d) w in
      match active_posters d with
      | [] => (http_error 404 "No active posters found", w')
      | row :: _ => (Ok (poster_view row), w')
      end
  end.

(** [GET /posters/{poster_id}]: the row as it is stored. *)
Definition get_poster (poster_id : Z) (w : World) : Result Poster.t * World :=
  match db_pool w with
  | None => (http_error 503 "Database not available", w)
  | Some d =>
      let w' := with_db (queried (SelectPoster poster_id) d) w in
      match find (fun r => Poster.id r =? poster_id) (posters d) with
      | None => (http_error 404 "Poster not found", w')
      | Some row => (Ok row, w')
      end
  end.

(** *** The photo proxy *)

(** The text of a [KeyError], which becomes the detail of a 500. *)
Definition key_error (key : string) : string := "'" ++ key ++ "'".

(** [GET /photo/{file_id}] *)
Definition get_photo (file_id : string) (w : World)
    : Result StreamingResponse * World :=
  if String.eqb BOT_TOKEN "" then (http_error 503 "Bot token not configured", w)
  else
    let file_info_url :=
      "https://api.telegram.org/bot" ++ BOT_TOKEN ++ "/getFile?file_id=" ++ file_id in
    let w1 := with_request file_info_url w in
    match http_get file_info_url with
    | inl e => (http_error 500 e, w1)
    | inr file_response =>
        match json file_response with
        | inl e => (http_error 500 e, w1)
        | inr (ok, result) =>
            if negb ok then (http_error 404 "File not found", w1)
            else
              match result with
              | None => (http_error 500 (key_error "result"), w1)
              | Some None => (http_error 500 (key_error "file_path"), w1)
              | Some (Some file_path) =>
                  let file_url :=
                    "https://api.telegram.org/file/bot" ++ BOT_TOKEN ++ "/" ++ file_path in
                  let w2 := with_request file_url w1 in
                  match http_get file_url with
                  | inl e => (http_error 500 e, w2)
                  | inr photo_response =>
                      if negb (resp_status_code photo_response =? 200)
                      then (http_error 404 "Failed to download photo", w2)
                      else
                        (Ok {| body := [content photo_response];
                               media_type := "image/jpeg";
                               headers := [("Cache-Control", "public, max-age=86400")] |},
                         w2)
                  end
              end
        end
    end.

(** *** Stories *)

Definition story_view (row : Story.t) : StoryView.t :=
  let file_id := Story.file_id row in
  {| StoryView.id := Story.id row;
     StoryView.file_id := file_id;
     StoryView.photo_url := story_photo_url file_id;
     StoryView.caption := Story.caption row;
     StoryView.slot_number := Story.slot_number row;
     StoryView.created_at := Story.created_at row;
     StoryView.is_active := Story.is_active row |}.

Definition story_out (row : Story.t) : StoryOut.t :=
  {| StoryOut.id := Story.id row;
     StoryOut.file_id := Story.file_id row;
     StoryOut.caption := Story.caption row;
     StoryOut.order_num := Story.order_num row;
     StoryOut.created_at := Story.created_at row;
     StoryOut.is_active := Story.is_active row |}.

Definition slot_out (row : Story.t) : SlotOut.t :=
  {| SlotOut.id := Story.id row;
     SlotOut.file_id := Story.file_id row;
     SlotOut.caption := Story.caption row;
     SlotOut.slot_number := Story.slot_number row;
     SlotOut.created_at := Story.created_at row;
     SlotOut.is_active := Story.is_active row |}.

(** [SELECT ... FROM stories WHERE is_active = true ORDER BY slot_number ASC] *)
Definition active_stories (d : DB) : list Story.t :=
  order_by slot_number_asc (List.filter Story.is_active (stories d)).

(** [GET /stories] *)
Definition get_stories (w : World) : Result (list StoryView.t) * World :=
  match db_pool w with
  | None => (http_error 503 "Database not available", w)
  | Some d =>
      (Ok (map story_view (active_stories d)),
       with_db (queried SelectActiveStories d) w)
  end.

(** [POST /stories]: [INSERT INTO stories (file_id, caption, order_num,
    is_active) VALUES ($1, $2, $3, true)]; the slot number is the column
    default. *)
Definition create_story (story : StoryCreate.t) (user_id : Z) (w : World)
    : Result StoryOut.t * World :=
  if negb (is_admin user_id)
  then (http_error 403 "Access denied. Admins only.", w)
  else
    match db_pool w with
    | None => (http_error 503 "Database not available", w)
    | Some d =>
        let row :=
          {| Story.id := stories_id_seq d;
             Story.file_id := StoryCreate.file_id story;
             Story.caption := StoryCreate.caption story;
             Story.slot_number := slot_number_default;
             Story.order_num := Some (StoryCreate.order_num story);
             Story.created_at := clock d;
             Story.is_active := true |} in
        let q := InsertStory (StoryCreate.file_id story) (StoryCreate.caption story)
                   (StoryCreate.order_num story) in
        (Ok (story_out row),
         with_db (executed q (stories d ++ [row]) (stories_id_seq d + 1) d) w)
    end.

(** The [updates] list of [update_story]: one assignment per field of the
    body that is not [None], in the order caption, order_num, is_active. *)
Definition updates_of (story : StoryUpdate.t) : list Assignment :=
  match StoryUpdate.caption story with Some c => [SetCaption c] | None => [] end
  ++ match StoryUpdate.order_num story with Some n => [SetOrderNum n] | None => [] end
  ++ match StoryUpdate.is_active story with Some b => [SetIsActive b] | None => [] end.

(** [PUT /stories/{story_id}] *)
Definition update_story (story_id : Z) (story : StoryUpdate.t) (user_id : Z)
    (w : World) : Result StoryOut.t * World :=
  if negb (is_admin user_id)
  then (http_error 403 "Access denied. Admins only.", w)
  else
    match db_pool w with
    | None => (http_error 503 "Database not available", w)
    | Some d =>
        let updates := updates_of story in
        match updates with
        | [] => (http_error 400 "No fields to update", w)
        | _ :: _ =>
            let rows := sql_update updates story_id (stories d) in
            let w' := with_db (executed (UpdateStory updates story_id) rows
                                 (stories_id_seq d) d) w in
            match find (fun r => Story.id r =? story_id) rows with
            | None => (http_error 404 "Story not found", w')
            | Some row => (Ok (story_out row), w')
            end
        end
    end.

(** [DELETE /stories/{story_id}]: the driver reports ["DELETE n"] with [n]
    the number of rows removed. *)
Definition delete_story (story_id : Z) (user_id : Z) (w : World)
    : Result string * World :=
  if negb (is_admin user_id)
  then (http_error 403 "Access denied. Admins only.", w)
  else
    match db_pool w with
    | None => (http_error 503 "Database not available", w)
    | Some d =>
        let rows := sql_delete story_id (stories d) in
        let w' := with_db (executed (DeleteStory story_id) rows
                             (stories_id_seq d) d) w in
        if (length (stories d) - length rows =? 0)%nat
        then (http_error 404 "Story not found", w')
        else (Ok "Story deleted successfully", w')
    end.

(** [GET /check-admin/{user_id}] *)
Definition check_admin_endpoint (user_id : Z) : bool := is_admin user_id.

(** *** Upload intake *)

(** The directory the photos of stories are written to. *)
Definition upload_dir : string := "uploads/stories".

(** [POST /upload-story-photo].  [uuid4] is the text of the identifier that
    [uuid.uuid4()] draws for this request. *)
Definition upload_story_photo (user_id : Z) (file_ : UploadFile) (uuid4 : string)
    (w : World) : Result UploadOut.t * World :=
  if negb (is_admin user_id) then (http_error 403 "Access denied", w)
  else if negb (truthy (content_type file_))
          || negb (startswith (or_empty (content_type file_)) "image/")
  then (http_error 400 "File must be an image", w)
  else
    let file_extension :=
      suffix (or_else (filename file_) "image.jpg") in
    let unique_filename := uuid4 ++ file_extension in
    let file_path := upload_dir ++ "/" ++ unique_filename in
    let relative_path := "/uploads/stories/" ++ unique_filename in
    (Ok {| UploadOut.success := true;
           UploadOut.photo_url := relative_path;
           UploadOut.filename := unique_filename |},
     {| db_pool := db_pool w;
        directories := {["uploads"; upload_dir]} ∪ directories w;
        files := <[file_path := file file_]> (files w);
        requests := requests w |}).

(** *** Slot rotation *)

(** [POST /stories/create-in-slot]: deactivate the active stories of the
    slot, then [INSERT INTO stories (file_id, caption, slot_number,
    is_active) VALUES ($1, $2, $3, true)]; the order number is the column
    default. *)
Definition create_story_in_slot (user_id slot_number : Z) (file_id : string)
    (caption : option string) (w : World) : Result SlotOut.t * World :=
  if negb (is_admin user_id) then (http_error 403 "Access denied", w)
  else if negb (existsb (Z.eqb slot_number) [1; 2; 3])
  then (http_error 400 "Slot number must be 1, 2, or 3", w)
  else
    match db_pool w with
    | None => (http_error 503 "Database not available", w)
    | Some d =>
        let d1 := executed (DeactivateSlot slot_number)
                    (sql_deactivate_slot slot_number (stories d))
                    (stories_id_seq d) d in
        let row :=
          {| Story.id := stories_id_seq d1;
             Story.file_id := file_id;
             Story.caption := caption;
             Story.slot_number := Some slot_number;
             Story.order_num := order_num_default;
             Story.created_at := clock d1;
             Story.is_active := true |} in
        let d2 := executed (InsertStoryInSlot file_id caption slot_number)
                    (stories d1 ++ [row]) (stories_id_seq d1 + 1) d1 in
        (Ok (slot_out row), with_db d2 w)
    end.

End Handlers.

(** ** Notions of the specification *)

(** [c] occurs in [s]. *)
Fixpoint occurs (c : ascii) (s : string) : bool :=
  match s with
  | EmptyString => false
  | String a s' => Ascii.eqb a c || occurs c s'
  end.






(** The decimal text of a number of seconds, and a day in seconds. *)
Definition seconds_text (seconds : Z) : string :=
  NilZero.string_of_int (Z.to_int seconds).

Definition one_day : Z := 24 * 60 * 60.

(** The two URLs of the proxy fetch: "resolve file path" and "download
    bytes". *)
Definition resolve_call (token file_id : string) : string :=
  "https://api.telegram.org/bot" ++ token ++ "/getFile?file_id=" ++ file_id.

Definition download_call (token file_path : string) : string :=
  "https://api.telegram.org/file/bot" ++ token ++ "/" ++ file_path.

(** A declared content type of the image family. *)
Definition image_family (declared : option string) : Prop :=
  exists subtype, declared = Some ("image/" ++ subtype).

(** A story with the fields of a partial update applied: a field of the
    patch that is present replaces the field of the row, an absent one
    leaves it. *)
Definition patched (p : StoryUpdate.t) (r : Story.t) : Story.t :=
  {| Story.id := Story.id r;
     Story.file_id := Story.file_id r;
     Story.caption :=
       match StoryUpdate.caption p with Some c => Some c | None => Story.caption r end;
     Story.slot_number := Story.slot_number r;
     Story.order_num :=
       match StoryUpdate.order_num p with Some n => Some n | None => Story.order_num r end;
     Story.created_at := Story.created_at r;
     Story.is_active :=
       match StoryUpdate.is_active p with Some b => b | None => Story.is_active r end |}.

(** The table after a partial update of the rows with one id. *)
Definition patch_rows (p : StoryUpdate.t) (story_id : Z) (rows : list Story.t)
    : list Story.t :=
  map (fun row => if Story.id row =? story_id then patched p row else row) rows.

(** A patch without any field. *)
Definition empty_patch (p : StoryUpdate.t) : Prop :=
  StoryUpdate.caption p = None /\ StoryUpdate.order_num p = None
  /\ StoryUpdate.is_active p = None.

(** The table [stories] as the world holds it. *)
Definition world_stories (w : World) : list Story.t :=
  match db_pool w with
  | Some d => stories d
  | None => []
  end.

(** The active stories of one slot. *)
Definition active_in_slot (slot_number : Z) (rows : list Story.t) : list Story.t :=
  List.filter (in_active_slot slot_number) rows.

(** The slot invariant: each of the slots 1, 2, 3 holds at most one active
    story. *)
Definition slot_invariant (rows : list Story.t) : Prop :=
  forall s, In s [1; 2; 3] -> (length (active_in_slot s rows) <= 1)%nat.

(** Every active story sits in one of the three slots. *)
Definition active_in_slots (rows : list Story.t) : Prop :=
  forall r, In r rows -> Story.is_active r = true ->
    exists s, Story.slot_number r = Some s /\ In s [1; 2; 3].

(** ** Reachable states of the store *)

(** The write requests of the Story Slot Manager. *)
Inductive Request :=
| PostStory (story : StoryCreate.t) (user_id : Z)
| PutStory (story_id : Z) (story : StoryUpdate.t) (user_id : Z)
| DeleteStoryById (story_id : Z) (user_id : Z)
| PostStoryInSlot (user_id slot_number : Z) (file_id : string) (caption : option string).

(** A freshly created store behind an initialised pool. *)
Definition fresh_world : World :=
  {| db_pool := Some {| posters := []; stories := []; stories_id_seq := 1;
                        clock := 0; statements := [] |};
     directories := ∅;
     files := ∅;
     requests := [] |}.

Section Lifecycle.

Variable ADMIN_IDS : gset Z.
Variable slot_number_default : option Z.
Variable order_num_default : option Z.

(** The world after a write request has been served. *)
Definition serve (w : World) (req : Request) : World :=
  match req with
  | PostStory story user_id =>
      snd (create_story ADMIN_IDS slot_number_default story user_id w)
  | PutStory story_id story user_id =>
      snd (update_story ADMIN_IDS story_id story user_id w)
  | DeleteStoryById story_id user_id =>
      snd (delete_story ADMIN_IDS story_id user_id w)
  | PostStoryInSlot user_id slot_number file_id caption =>
      snd (create_story_in_slot ADMIN_IDS order_num_default user_id slot_number
             file_id caption w)
  end.

(** The worlds reached from the fresh one by serving write requests one
    after the other. *)
Inductive reachable : World -> Prop :=
| reachable_fresh : reachable fresh_world
| reachable_serve w req : reachable w -> reachable (serve w req).

End Lifecycle.

(** A story, or a view of one, that sits in the slot. *)
Definition in_slot (slot_number : Z) (r : Story.t) : bool :=
  match Story.slot_number r with
  | Some s => s =? slot_number
  | None => false
  end.

Definition view_in_slot (slot_number : Z) (v : StoryView.t) : bool :=
  match StoryView.slot_number v with
  | Some s => s =? slot_number
  | None => false
  end.

(** The write requests that keep the slot invariant: all but an update
    that sets [is_active] to true, and an insert without slot number when
    the column default is one of the three slots. *)
Definition keeps_slots (slot_number_default : option Z) (req : Request) : Prop :=
  match req with
  | PostStory _ _ => forall s, slot_number_default = Some s -> ~ In s [1; 2; 3]
  | PutStory _ story _ => StoryUpdate.is_active story <> Some true
  | DeleteStoryById _ _ => True
  | PostStoryInSlot _ _ _ _ => True
  end.

(** ** Serving uploaded photos *)

(** What a [FileResponse] is built from: the path of the file to send. *)
Record FileResponse := { path : string }.

(** [Path.exists()] on the disk of the world: a file or a directory is
    stored under the path. *)
Definition path_exists (p : string) (w : World) : bool :=
  bool_decide (is_Some (files w !! p)) || bool_decide (p ∈ directories w).

(** [Path("uploads/stories") / filename] for a path parameter, which holds
    no slash and is not empty: pathlib drops a component ["."], so that
    name gives the upload directory itself; every other name, [".."]
    included, is appended behind a slash. *)
Definition story_photo_path (filename : string) : string :=
  if String.eqb filename "." then upload_dir else upload_dir ++ "/" ++ filename.

(** [file_path.exists()]: the name [".."] leads to the parent of the upload
    directory, which exists when the upload directory does. *)
Definition story_photo_exists (filename : string) (w : World) : bool :=
  if String.eqb filename ".." then bool_decide (upload_dir ∈ directories w)
  else path_exists (story_photo_path filename) w.

(** [GET /uploads/stories/{filename}]: the answer is the [FileResponse] for
    the path, which the server then sends. *)
Definition get_story_photo (filename : string) (w : World)
    : Result FileResponse * World :=
  let file_path := story_photo_path filename in
  if negb (story_photo_exists filename w)
  then (http_error 404 "Photo not found", w)
  else (Ok {| path := file_path |}, w).

(** ** Further notions *)

(** The tables and the serial of the store, without the statement log. *)
Definition same_tables (d d' : DB) : Prop :=
  posters d' = posters d /\ stories d' = stories d
  /\ stories_id_seq d' = stories_id_seq d /\ clock d' = clock d.

(** The second world holds the tables, the serial, the files and the
    directories of the first: at most the statement log and the list of
    requests differ. *)
Definition reads_only (w w' : World) : Prop :=
  match db_pool w, db_pool w' with
  | Some d, Some d' => same_tables d d'
  | None, None => True
  | _, _ => False
  end
  /\ files w' = files w /\ directories w' = directories w.

(** The ids of the rows are pairwise distinct and below [seq]. *)
Definition ids_below (rows : list Story.t) (seq : Z) : Prop :=
  List.NoDup (map Story.id rows) /\ forall r, In r rows -> Story.id r < seq.

(** Story ids are pairwise distinct and below the serial that numbers the
    next story. *)
Definition fresh_ids (w : World) : Prop :=
  match db_pool w with
  | Some d => ids_below (stories d) (stories_id_seq d)
  | None => True
  end.

(** Newest first, and lowest slot first with the stories without slot at
    the end. *)
Definition newest_first (a b : PosterView.t) : Prop :=
  PosterView.created_at b <= PosterView.created_at a.

Definition by_slot (a b : StoryView.t) : Prop :=
  match StoryView.slot_number a, StoryView.slot_number b with
  | Some x, Some y => x <= y
  | Some _, None => True
  | None, Some _ => False
  | None, None => True
  end.

(** ** Sample data *)

(** The administrators of the default configuration. *)
Definition default_admins : gset Z := {[ 825042510; 8160172817 ]}.

(** Two rotations of slot 1, then the first story is switched on again. *)
Definition reactivation : list Request :=
  [ PostStoryInSlot 825042510 1 "AgACAgIAAxkBAAIB" None;
    PostStoryInSlot 825042510 1 "/uploads/stories/b.jpg" None;
    PutStory 1 {| StoryUpdate.caption := None; StoryUpdate.order_num := None;
                  StoryUpdate.is_active := Some true |} 825042510 ].

(** The world after these requests, under the default configuration and
    with NULL as the default of both columns. *)
Definition reactivated_world : World :=
  fold_left (serve default_admins None None) reactivation fresh_world.

(** The store after one rotation of slot 2 by an admin. *)
Definition rotated_world : World :=
  serve default_admins None None fresh_world
    (PostStoryInSlot 825042510 2 "AgACAgIAAxkBAAIC" (Some "Friday")).

(** The patch [{order_num: 5}]. *)
Definition order_patch : StoryUpdate.t :=
  {| StoryUpdate.caption := None; StoryUpdate.order_num := Some 5;
     StoryUpdate.is_active := None |}.

(** A store with an active and an inactive poster. *)
Definition summer_poster : Poster.t :=
  {| Poster.id := 1; Poster.file_id := "/posters/poster_1.jpg";
     Poster.caption := Some ("Summer night" ++ String newline "Doors at 22:00");
     Poster.ticket_url := None; Poster.venue_map_file_id := None;
     Poster.created_at := 1700000000; Poster.is_active := true |}.

Definition retired_poster : Poster.t :=
  {| Poster.id := 2; Poster.file_id := "AgACAgIAAxkBAAID";
     Poster.caption := None;
     Poster.ticket_url := None; Poster.venue_map_file_id := None;
     Poster.created_at := 1690000000; Poster.is_active := false |}.

Definition poster_world : World :=
  {| db_pool := Some {| posters := [summer_poster; retired_poster];
                        stories := []; stories_id_seq := 1;
                        clock := 1700000100; statements := [] |};
     directories := ∅;
     files := ∅;
     requests := [] |}.

(** The index of the last occurrence of a character. *)
Fixpoint rfind (c : ascii) (s : string) : option nat :=
  match s with
  | EmptyString => None
  | String a s' =>
      match rfind c s' with
      | Some i => Some (S i)
      | None => if Ascii.eqb a c then Some O else None
      end
  end.

(** The suffix of a plain file name as pathlib computes it: the text from
    the last dot on, when the dot is neither the first nor the last
    character. *)
Definition plain_suffix (name : string) : string :=
  match rfind "."%char name with
  | Some i =>
      if ((0 <? i) && (i <? String.length name - 1))%nat
      then substring i (String.length name - i) name
      else ""
  | None => ""
  end.

(** An uploaded PNG of four bytes. *)
Definition png_upload : UploadFile :=
  {| filename := Some "flyer.png";
     content_type := Some "image/png";
     file := [Byte.x89; Byte.x50; Byte.x4e; Byte.x47] |}.

Definition drawn_uuid : string := "3f2b8c1e-7d4a-4e0b-9a6f-5c1d2e3f4a5b".

(** A world whose pool is not initialised. *)
Definition cold_world : World :=
  {| db_pool := None; directories := ∅; files := ∅; requests := [] |}.

(** The body of a [POST /stories]. *)
Definition flyer_story : StoryCreate.t :=
  {| StoryCreate.file_id := "AgACAgIAAxkBAAIE";
     StoryCreate.caption := Some "Flyer"; StoryCreate.order_num := 4 |}.

(** The patch [{is_active: false}]. *)
Definition off_patch : StoryUpdate.t :=
  {| StoryUpdate.caption := None; StoryUpdate.order_num := None;
     StoryUpdate.is_active := Some false |}.

(** A bot token, and a platform that cannot be reached. *)
Definition sample_token : string := "123456:AAF-sample".

Definition offline (url : string) : string + Response :=
  inl "All connection attempts failed".

(** A store that holds one story created by [POST /stories], the default
    of column [slot_number] being NULL. *)
Definition unslotted_world : World :=
  serve default_admins None None fresh_world
    (PostStory {| StoryCreate.file_id := "AgACAgIAAxkBAAIF";
                  StoryCreate.caption := Some "Teaser";
                  StoryCreate.order_num := 0 |} 825042510).

(** The slots 1, 2 and 3 rotated once each on that store. *)
Definition crowded_world : World :=
  fold_left (serve default_admins None None)
    [ PostStoryInSlot 825042510 1 "/uploads/stories/one.jpg" None;
      PostStoryInSlot 825042510 2 "/uploads/stories/two.jpg" None;
      PostStoryInSlot 825042510 3 "/uploads/stories/three.jpg" None ]
    unslotted_world.

(** * Properties *)

(** ** Strings *)

Lemma startswith_cons (a b : ascii) (s p : string) :
  startswith (String a s) (String b p)
  = if ascii_dec b a then startswith s p else false.
Proof. reflexivity. Qed.

Lemma startswith_app (p s : string) :
  startswith s p = true -> exists t, s = p ++ t.
Proof.
  unfold startswith. revert s.
  induction p as [|a p IH]; intros s H.
  - exists s. reflexivity.
  - destruct s as [|b s]; simpl in H; [discriminate|].
    destruct (ascii_dec a b) as [->|]; [|discriminate].
    destruct (IH s H) as [t ->]. exists t. reflexivity.
Qed.

Lemma startswith_of_app (p t : string) : startswith (p ++ t) p = true.
Proof.
  unfold startswith. induction p as [|a p IH]; simpl.
  - destruct t; reflexivity.
  - destruct (ascii_dec a a); [exact IH|congruence].
Qed.

Lemma break_at_some (c : ascii) (s h t : string) :
  break_at c s = Some (h, t) ->
  s = h ++ String c t /\ occurs c h = false.
Proof.
  revert h t. induction s as [|a s IH]; intros h t H; simpl in H.
  - discriminate.
  - destruct (Ascii.eqb a c) eqn:E.
    + apply Ascii.eqb_eq in E. subst a.
      inversion H; subst. split; reflexivity.
    + destruct (break_at c s) as [[h' t']|] eqn:B; [|discriminate].
      inversion H; subst.
      destruct (IH h' t eq_refl) as [-> Hh].
      split; [reflexivity|]. simpl. rewrite E. exact Hh.
Qed.

Lemma break_at_none (c : ascii) (s : string) :
  break_at c s = None <-> occurs c s = false.
Proof.
  induction s as [|a s IH]; simpl.
  - split; reflexivity.
  - destruct (Ascii.eqb a c); simpl.
    + split; discriminate.
    + destruct (break_at c s) as [[h t]|].
      * split; [discriminate|]. intros H. apply IH in H. discriminate.
      * split; [|reflexivity]. intros _. apply IH. reflexivity.
Qed.

(** [split] never returns the empty list. *)
Lemma split1_not_nil (c : ascii) (s : string) : split1 c s <> [].
Proof. unfold split1. destruct (break_at c s) as [[h t]|]; discriminate. Qed.

(** ** Poster Reader *)

(** With a newline in the caption, the title is the text before the first
    newline and the subtitle all the text after it. *)
Lemma poster_view_with_newline (row : Poster.t) (c : string) :
  Poster.caption row = Some c ->
  occurs newline c = true ->
  c = PosterView.title (poster_view row)
        ++ String newline (PosterView.subtitle (poster_view row))
  /\ occurs newline (PosterView.title (poster_view row)) = false.
Proof.
  intros Hc Hn. unfold poster_view; simpl. rewrite Hc.
  assert (Hor : or_empty (Some c) = c).
  { unfold or_empty, or_else. destruct (String.eqb_spec c ""); congruence. }
  rewrite Hor. unfold split1.
  destruct (break_at newline c) as [[h t]|] eqn:B.
  - apply break_at_some in B. exact B.
  - apply break_at_none in B. congruence.
Qed.

(** Without a newline, the title is the caption and the subtitle is
    empty. *)
Lemma poster_view_without_newline (row : Poster.t) :
  occurs newline (or_empty (Poster.caption row)) = false ->
  PosterView.title (poster_view row) = or_empty (Poster.caption row)
  /\ PosterView.subtitle (poster_view row) = "".
Proof.
  intros Hn. unfold poster_view; simpl. unfold split1.
  apply break_at_none in Hn. rewrite Hn. split; reflexivity.
Qed.

(** The fallback title is never taken: [title_of] only sees the lists that
    [split] builds, and takes their first element. *)
Lemma title_of_split1 (c : string) :
  title_of (split1 newline c)
  = match break_at newline c with
    | Some (h, _) => h
    | None => c
    end.
Proof.
  unfold split1. destruct (break_at newline c) as [[h t]|]; reflexivity.
Qed.

(** C3 (the fallback title): a poster whose caption is absent or empty gets
    the empty string as its title, not the fallback "Мероприятие"; the
    split of the empty caption is the one-element list holding the empty
    string, so the guard [if lines] always takes its first branch. *)
Theorem poster_title_of_missing_caption
    (id : Z) (file_id : string) (ticket_url venue_map : option string)
    (created_at : Z) (is_active : bool) :
  let row caption :=
    {| Poster.id := id; Poster.file_id := file_id; Poster.caption := caption;
       Poster.ticket_url := ticket_url; Poster.venue_map_file_id := venue_map;
       Poster.created_at := created_at; Poster.is_active := is_active |} in
  PosterView.title (poster_view (row None)) = ""
  /\ PosterView.title (poster_view (row (Some ""))) = ""
  /\ PosterView.subtitle (poster_view (row None)) = ""
  /\ default_title <> "".
Proof.
  simpl. repeat split; try reflexivity. discriminate.
Qed.

(** ** Photo Resolver *)





(** C10: the two local-file tests differ.  The poster readers take exactly
    the references that start with [/posters/] or [posters/] as local, the
    story listing exactly those that start with [/uploads/] or [uploads/];
    so a story whose reference starts with [/posters/] goes to the proxy,
    and so does a poster whose reference starts with [/uploads/]. *)
Theorem local_file_test_per_endpoint :
  (forall ref, poster_is_local_file ref = true <->
     (exists t, ref = "/posters/" ++ t) \/ (exists t, ref = "posters/" ++ t))
  /\ (forall ref, story_is_local_file ref = true <->
        (exists t, ref = "/uploads/" ++ t) \/ (exists t, ref = "uploads/" ++ t))
  /\ (forall t, poster_photo_url ("/posters/" ++ t) = "/posters/" ++ t
                /\ story_photo_url ("/posters/" ++ t) = "/photo//posters/" ++ t)
  /\ (forall t, story_photo_url ("/uploads/" ++ t) = "/uploads/" ++ t
                /\ poster_photo_url ("/uploads/" ++ t) = "/photo//uploads/" ++ t).
Proof.
  split; [|split; [|split]].
  - intros ref. unfold poster_is_local_file. rewrite orb_true_iff. split.
    + intros [H|H]; [left|right]; apply startswith_app; exact H.
    + intros [[t ->]|[t ->]]; [left|right]; apply startswith_of_app.
  - intros ref. unfold story_is_local_file. rewrite orb_true_iff. split.
    + intros [H|H]; [left|right]; apply startswith_app; exact H.
    + intros [[t ->]|[t ->]]; [left|right]; apply startswith_of_app.
  - intros t. split; [|reflexivity].
    unfold poster_photo_url, poster_is_local_file.
    rewrite startswith_of_app. reflexivity.
  - intros t. split; [|reflexivity].
    unfold story_photo_url, story_is_local_file.
    rewrite startswith_of_app. reflexivity.
Qed.

(** ** [ORDER BY] keeps the rows *)

Lemma insert_sorted_perm {A} (le : A -> A -> bool) (x : A) (l : list A) :
  Permutation (insert_sorted le x l) (x :: l).
Proof.
  induction l as [|y l IH]; simpl.
  - apply Permutation_refl.
  - destruct (le x y).
    + apply Permutation_refl.
    + eapply perm_trans; [apply perm_skip, IH|apply perm_swap].
Qed.

Lemma order_by_perm {A} (le : A -> A -> bool) (l : list A) :
  Permutation (order_by le l) l.
Proof.
  induction l as [|x l IH]; simpl.
  - apply perm_nil.
  - eapply perm_trans; [apply insert_sorted_perm|apply perm_skip, IH].
Qed.

Lemma order_by_In {A} (le : A -> A -> bool) (l : list A) (x : A) :
  In x (order_by le l) <-> In x l.
Proof.
  split; apply Permutation_in;
    [apply order_by_perm|apply Permutation_sym, order_by_perm].
Qed.

Lemma filter_perm {A} (p : A -> bool) (l l' : list A) :
  Permutation l l' -> Permutation (List.filter p l) (List.filter p l').
Proof.
  induction 1 as [|x l l' _ IH|x y l|l l' l'' _ IH1 _ IH2]; simpl.
  - apply perm_nil.
  - destruct (p x); [apply perm_skip|]; exact IH.
  - destruct (p x), (p y); try apply Permutation_refl. apply perm_swap.
  - eapply perm_trans; eassumption.
Qed.

(** ** Admin Gate *)

Lemma is_admin_false (ADMIN_IDS : gset Z) (user_id : Z) :
  user_id ∉ ADMIN_IDS -> is_admin ADMIN_IDS user_id = false.
Proof. intros H. unfold is_admin. apply bool_decide_eq_false_2. exact H. Qed.

Lemma is_admin_true (ADMIN_IDS : gset Z) (user_id : Z) :
  user_id ∈ ADMIN_IDS -> is_admin ADMIN_IDS user_id = true.
Proof. intros H. unfold is_admin. apply bool_decide_eq_true_2. exact H. Qed.

(** C4: a caller outside the admin set is refused by every mutating
    handler with [PermissionDenied], and the world stays as it was: no
    statement reaches the store, no file or directory is written, no row
    is inserted. *)
Theorem non_admin_changes_nothing
    (ADMIN_IDS : gset Z) (slot_number_default order_num_default : option Z)
    (suffix : string -> string) (user_id : Z) (w : World) :
  user_id ∉ ADMIN_IDS ->
  (forall story,
     let r := create_story ADMIN_IDS slot_number_default story user_id w in
     signals (fst r) PermissionDenied /\ snd r = w
     /\ world_stories (snd r) = world_stories w)
  /\ (forall story_id story,
        let r := update_story ADMIN_IDS story_id story user_id w in
        signals (fst r) PermissionDenied /\ snd r = w)
  /\ (forall story_id,
        let r := delete_story ADMIN_IDS story_id user_id w in
        signals (fst r) PermissionDenied /\ snd r = w)
  /\ (forall slot_number file_id caption,
        let r := create_story_in_slot ADMIN_IDS order_num_default user_id
                   slot_number file_id caption w in
        signals (fst r) PermissionDenied /\ snd r = w)
  /\ (forall file_ uuid4,
        let r := upload_story_photo ADMIN_IDS suffix user_id file_ uuid4 w in
        signals (fst r) PermissionDenied /\ snd r = w).
Proof.
  intros H. apply is_admin_false in H.
  unfold create_story, update_story, delete_story, create_story_in_slot,
    upload_story_photo.
  rewrite H. simpl. repeat split.
Qed.

(** ** Poster Reader: lookup by id *)

Lemma find_by_unique_id (l : list Poster.t) (row : Poster.t) :
  List.NoDup (map Poster.id l) -> In row l ->
  find (fun r => Poster.id r =? Poster.id row) l = Some row.
Proof.
  induction l as [|x l IH]; intros Hnd Hin; [contradiction|].
  simpl in *. inversion Hnd as [|? ? Hx Hnd']; subst.
  destruct Hin as [->|Hin].
  - rewrite Z.eqb_refl. reflexivity.
  - destruct (Z.eqb_spec (Poster.id x) (Poster.id row)) as [E|_].
    + exfalso. apply Hx. rewrite E. apply in_map. exact Hin.
    + apply IH; assumption.
Qed.

Lemma active_posters_In (d : DB) (row : Poster.t) :
  In row (active_posters d) <->
  In row (posters d) /\ Poster.is_active row = true.
Proof.
  unfold active_posters. rewrite order_by_In. apply filter_In.
Qed.

(** C9: [get_poster] looks the row up by id alone.  A row with the id is
    returned whatever its [is_active]; [NotFound] is signalled exactly when
    no row has the id; and, ids being unique, an inactive poster is
    returned by id although the list of active posters and the latest
    active poster leave it out. *)
Theorem get_poster_ignores_is_active (w : World) (d : DB) (poster_id : Z) :
  db_pool w = Some d ->
  (forall row, In row (posters d) -> Poster.id row = poster_id ->
     exists row', fst (get_poster poster_id w) = Ok row'
                  /\ In row' (posters d) /\ Poster.id row' = poster_id)
  /\ (signals (fst (get_poster poster_id w)) NotFound <->
      forall row, In row (posters d) -> Poster.id row <> poster_id)
  /\ (forall row,
        List.NoDup (map Poster.id (posters d)) ->
        In row (posters d) -> Poster.id row = poster_id ->
        Poster.is_active row = false ->
        fst (get_poster poster_id w) = Ok row
        /\ (forall views, fst (get_posters w) = Ok views ->
              ~ In poster_id (map PosterView.id views))
        /\ (forall view, fst (get_latest_poster w) = Ok view ->
              PosterView.id view <> poster_id)).
Proof.
  intros Hd. unfold get_poster, get_posters, get_latest_poster. rewrite Hd.
  split; [|split].
  - intros row Hin Hid.
    destruct (find (fun r => Poster.id r =? poster_id) (posters d)) as [row'|] eqn:F.
    + apply find_some in F. destruct F as [Hin' E]. apply Z.eqb_eq in E.
      exists row'. simpl. auto.
    + exfalso. eapply find_none in F; [|exact Hin].
      apply Z.eqb_neq in F. contradiction.
  - destruct (find (fun r => Poster.id r =? poster_id) (posters d)) as [row'|] eqn:F;
      simpl.
    + apply find_some in F. destruct F as [Hin' E]. apply Z.eqb_eq in E.
      split; [contradiction|]. intros H. exfalso. exact (H row' Hin' E).
    + split; [|reflexivity]. intros _ row Hin.
      eapply find_none in F; [|exact Hin]. apply Z.eqb_neq. exact F.
  - intros row Hnd Hin Hid Hact. subst poster_id.
    rewrite find_by_unique_id by assumption.
    assert (Hout : forall r, In r (active_posters d) -> Poster.id r <> Poster.id row).
    { intros r Hr E. apply active_posters_In in Hr. destruct Hr as [Hr Ha].
      assert (r = row).
      { pose proof (find_by_unique_id (posters d) r Hnd Hr) as F1.
        pose proof (find_by_unique_id (posters d) row Hnd Hin) as F2.
        rewrite E in F1. congruence. }
      subst r. congruence. }
    split; [reflexivity|]. split.
    + intros views Hv. simpl in Hv. inversion Hv; subst views. clear Hv.
      rewrite map_map. simpl. intros Hc. apply in_map_iff in Hc.
      destruct Hc as [r [E Hr]]. exact (Hout r Hr E).
    + intros view Hv.
      destruct (active_posters d) as [|r rest] eqn:Ea; simpl in Hv;
        [discriminate|].
      inversion Hv; subst view. simpl. apply Hout. left. reflexivity.
Qed.

(** ** Story Slot Manager: partial update *)

Lemma updates_of_patched (p : StoryUpdate.t) (r : Story.t) :
  fold_left apply_assignment (updates_of p) r = patched p r.
Proof.
  destruct r, p as [[c|] [n|] [b|]]; reflexivity.
Qed.

Lemma updates_of_nil (p : StoryUpdate.t) :
  updates_of p = [] <-> empty_patch p.
Proof.
  unfold empty_patch.
  destruct p as [[c|] [n|] [b|]]; simpl; split;
    try discriminate; try reflexivity;
    try (intros (H1 & H2 & H3); discriminate); auto.
Qed.

Lemma patched_id (p : StoryUpdate.t) (r : Story.t) :
  Story.id (patched p r) = Story.id r.
Proof. reflexivity. Qed.

Lemma sql_update_patched (p : StoryUpdate.t) (story_id : Z) (rows : list Story.t) :
  sql_update (updates_of p) story_id rows = patch_rows p story_id rows.
Proof.
  unfold sql_update, patch_rows. apply map_ext. intros row.
  rewrite updates_of_patched. reflexivity.
Qed.

Lemma find_patch_rows (p : StoryUpdate.t) (story_id : Z) (rows : list Story.t) :
  find (fun r => Story.id r =? story_id) (patch_rows p story_id rows)
  = option_map (patched p) (find (fun r => Story.id r =? story_id) rows).
Proof.
  induction rows as [|row rows IH]; [reflexivity|].
  simpl. destruct (Story.id row =? story_id) eqn:E.
  - rewrite patched_id, E. reflexivity.
  - rewrite E. exact IH.
Qed.

Lemma patch_rows_absent (p : StoryUpdate.t) (story_id : Z) (rows : list Story.t) :
  (forall row, In row rows -> Story.id row <> story_id) ->
  patch_rows p story_id rows = rows.
Proof.
  intros H. unfold patch_rows. rewrite <- (map_id rows) at 2.
  apply map_ext_in. intros row Hin.
  apply H in Hin. apply Z.eqb_neq in Hin. rewrite Hin. reflexivity.
Qed.

(** C5: for an admin and a reachable store, [update_story] with a patch
    without any field signals [InvalidArgument] and changes nothing; with a
    field present, every row with the id gets exactly the fields of the
    patch (an omitted field keeps its value, and so do the columns that no
    patch names) while every other row is left as it is; the handler
    answers with the patched row when a row has the id and signals
    [NotFound] when none has. *)
Theorem update_story_applies_patch
    (ADMIN_IDS : gset Z) (w : World) (d : DB)
    (story_id user_id : Z) (p : StoryUpdate.t) :
  user_id ∈ ADMIN_IDS ->
  db_pool w = Some d ->
  let r := update_story ADMIN_IDS story_id p user_id w in
  (empty_patch p -> signals (fst r) InvalidArgument /\ snd r = w)
  /\ (~ empty_patch p ->
      world_stories (snd r) = patch_rows p story_id (stories d)
      /\ (forall row,
            let row' := patched p row in
            Story.id row' = Story.id row
            /\ Story.file_id row' = Story.file_id row
            /\ Story.slot_number row' = Story.slot_number row
            /\ Story.created_at row' = Story.created_at row
            /\ Story.caption row'
               = match StoryUpdate.caption p with
                 | Some c => Some c | None => Story.caption row end
            /\ Story.order_num row'
               = match StoryUpdate.order_num p with
                 | Some n => Some n | None => Story.order_num row end
            /\ Story.is_active row'
               = match StoryUpdate.is_active p with
                 | Some b => b | None => Story.is_active row end)
      /\ (forall row, In row (stories d) -> Story.id row = story_id ->
            exists row0, In row0 (stories d) /\ Story.id row0 = story_id
                         /\ fst r = Ok (story_out (patched p row0)))
      /\ ((forall row, In row (stories d) -> Story.id row <> story_id) ->
            signals (fst r) NotFound /\ world_stories (snd r) = stories d)).
Proof.
  intros Ha Hd r. subst r. unfold update_story.
  rewrite (is_admin_true _ _ Ha), Hd. simpl negb. cbv iota.
  split.
  - intros He. apply updates_of_nil in He. rewrite He. split; reflexivity.
  - intros Hne.
    destruct (updates_of p) as [|u us] eqn:Eu.
    { exfalso. apply Hne. apply updates_of_nil. exact Eu. }
    rewrite <- Eu. rewrite sql_update_patched, find_patch_rows.
    split; [|split; [|split]].
    + destruct (find _ (stories d)); reflexivity.
    + intros row. repeat split.
    + intros row Hin Hid.
      destruct (find (fun r => Story.id r =? story_id) (stories d)) as [row0|] eqn:F.
      * apply find_some in F. destruct F as [Hin0 E]. apply Z.eqb_eq in E.
        exists row0. simpl. auto.
      * exfalso. eapply find_none in F; [|exact Hin].
        apply Z.eqb_neq in F. contradiction.
    + intros Habs.
      destruct (find (fun r => Story.id r =? story_id) (stories d)) as [row0|] eqn:F.
      * exfalso. apply find_some in F. destruct F as [Hin0 E].
        apply Z.eqb_eq in E. exact (Habs row0 Hin0 E).
      * simpl. split; [reflexivity|]. apply patch_rows_absent. exact Habs.
Qed.

(** ** Photo Resolver: the proxy fetch *)

Lemma download_is_not_resolve (token file_id file_path : string) :
  download_call token file_path <> resolve_call token file_id.
Proof. unfold download_call, resolve_call. simpl. discriminate. Qed.

(** C7: without a bot token the proxy signals [Unavailable] and requests
    nothing from Telegram.  With a token it requests the resolve URL once,
    followed by at most the download URL; a resolve answer that is not
    [ok] gives [NotFound] and no download; a resolve answer with a file
    path is followed by exactly one download request, and a download
    answered with status 200 is streamed back as one chunk with an image
    media type and a [Cache-Control] of one day (any other status gives
    [NotFound]). *)
Theorem get_photo_calls
    (BOT_TOKEN : string) (http_get : string -> string + Response)
    (file_id : string) (w : World) :
  let r := get_photo BOT_TOKEN http_get file_id w in
  let resolve := resolve_call BOT_TOKEN file_id in
  (BOT_TOKEN = "" -> signals (fst r) Unavailable /\ snd r = w)
  /\ (BOT_TOKEN <> "" ->
      (exists rest,
         requests (snd r) = (requests w ++ resolve :: rest)%list
         /\ (rest = [] \/ exists file_path, rest = [download_call BOT_TOKEN file_path]))
      /\ (forall resp result,
            http_get resolve = inr resp -> json resp = inr (false, result) ->
            signals (fst r) NotFound
            /\ requests (snd r) = (requests w ++ [resolve])%list)
      /\ (forall resp file_path,
            http_get resolve = inr resp ->
            json resp = inr (true, Some (Some file_path)) ->
            let download := download_call BOT_TOKEN file_path in
            requests (snd r) = (requests w ++ [resolve; download])%list
            /\ (forall photo,
                  http_get download = inr photo ->
                  resp_status_code photo = 200 ->
                  fst r = Ok {| body := [content photo];
                                media_type := "image/jpeg";
                                headers :=
                                  [("Cache-Control",
                                    "public, max-age=" ++ seconds_text one_day)] |})
            /\ (forall photo,
                  http_get download = inr photo ->
                  resp_status_code photo <> 200 ->
                  signals (fst r) NotFound))).
Proof.
  intros r resolve. subst r resolve. unfold get_photo.
  fold (resolve_call BOT_TOKEN file_id).
  split.
  - intros ->. simpl. split; reflexivity.
  - intros Hne. apply String.eqb_neq in Hne. rewrite Hne.
    split; [|split].
    + destruct (http_get (resolve_call BOT_TOKEN file_id)) as [e|resp];
        [solve [exists []; simpl; auto]|].
      destruct (json resp) as [e|[[|] [[file_path|]|]]];
        try solve [exists []; simpl; auto].
      fold (download_call BOT_TOKEN file_path).
      exists (download_call BOT_TOKEN file_path :: nil). split; [|eauto].
      destruct (http_get (download_call BOT_TOKEN file_path)) as [e|photo].
      * simpl. rewrite <- app_assoc. reflexivity.
      * destruct (negb (resp_status_code photo =? 200)); simpl;
          rewrite <- app_assoc; reflexivity.
    + intros resp result Hr Hj. rewrite Hr, Hj. simpl. split; reflexivity.
    + intros resp file_path Hr Hj. rewrite Hr, Hj. simpl negb. cbv iota.
      fold (download_call BOT_TOKEN file_path).
      split; [|split].
      * destruct (http_get (download_call BOT_TOKEN file_path)) as [e|photo].
        -- simpl. rewrite <- app_assoc. reflexivity.
        -- destruct (negb (resp_status_code photo =? 200)); simpl;
             rewrite <- app_assoc; reflexivity.
      * intros photo Hp Hs. rewrite Hp, Hs. reflexivity.
      * intros photo Hp Hs. rewrite Hp. apply Z.eqb_neq in Hs. rewrite Hs.
        reflexivity.
Qed.

(** ** Upload intake *)

Lemma image_family_accepted (declared : option string) :
  negb (truthy declared) || negb (startswith (or_empty declared) "image/") = false
  <-> image_family declared.
Proof.
  unfold image_family. rewrite orb_false_iff, !negb_false_iff. split.
  - intros [Ht Hs]. destruct declared as [c|]; [|discriminate].
    unfold or_empty, or_else in Hs. simpl in Ht.
    apply negb_true_iff in Ht. rewrite Ht in Hs.
    apply startswith_app in Hs. destruct Hs as [t ->]. exists t. reflexivity.
  - intros [t ->]. split; [reflexivity|]. apply (startswith_of_app "image/").
Qed.

Lemma app_same_length_inj (u u' a b : string) :
  String.length u = String.length u' -> u ++ a = u' ++ b -> u = u'.
Proof.
  revert u'. induction u as [|c u IH]; intros [|c' u'] Hl He;
    try discriminate; [reflexivity|].
  simpl in *. inversion He; subst. f_equal. apply IH; [lia|assumption].
Qed.

Lemma uploaded_path_is_local (name : string) :
  story_is_local_file ("/uploads/stories/" ++ name) = true
  /\ story_photo_url ("/uploads/stories/" ++ name) = "/uploads/stories/" ++ name.
Proof.
  assert (H : startswith ("/uploads/stories/" ++ name) "/uploads/" = true)
    by exact (startswith_of_app "/uploads/" ("stories/" ++ name)).
  unfold story_photo_url, story_is_local_file. rewrite H.
  split; reflexivity.
Qed.

(** C8: for an admin, an upload whose declared content type is not of the
    image family is refused with [InvalidArgument] and nothing is written;
    an image is stored under [uploads/stories/] with the drawn identifier
    followed by the extension as its name (two identifiers of the same
    length that differ give different names), and the returned path is one
    that the story listing takes as a local file and serves unchanged. *)
Theorem upload_story_photo_roundtrip
    (ADMIN_IDS : gset Z) (suffix : string -> string)
    (user_id : Z) (file_ : UploadFile) (uuid4 : string) (w : World) :
  user_id ∈ ADMIN_IDS ->
  let r := upload_story_photo ADMIN_IDS suffix user_id file_ uuid4 w in
  (~ image_family (content_type file_) ->
     signals (fst r) InvalidArgument /\ snd r = w)
  /\ (image_family (content_type file_) ->
      exists out,
        fst r = Ok out
        /\ UploadOut.filename out
           = uuid4 ++ suffix (or_else (filename file_) "image.jpg")
        /\ UploadOut.photo_url out = "/uploads/stories/" ++ UploadOut.filename out
        /\ files (snd r)
           = <[ "uploads/stories/" ++ UploadOut.filename out := file file_ ]> (files w)
        /\ db_pool (snd r) = db_pool w
        /\ requests (snd r) = requests w
        /\ story_is_local_file (UploadOut.photo_url out) = true
        /\ story_photo_url (UploadOut.photo_url out) = UploadOut.photo_url out
        /\ (forall file' uuid4' w' out',
              fst (upload_story_photo ADMIN_IDS suffix user_id file' uuid4' w')
              = Ok out' ->
              String.length uuid4' = String.length uuid4 -> uuid4' <> uuid4 ->
              UploadOut.filename out' <> UploadOut.filename out)).
Proof.
  intros Ha r. subst r. unfold upload_story_photo.
  rewrite (is_admin_true _ _ Ha). simpl negb. cbv iota.
  split.
  - intros Hn.
    destruct (negb (truthy (content_type file_))
              || negb (startswith (or_empty (content_type file_)) "image/")) eqn:E.
    + split; reflexivity.
    + exfalso. apply Hn. apply image_family_accepted. exact E.
  - intros Hi. apply image_family_accepted in Hi. rewrite Hi.
    eexists. split; [reflexivity|].
    cbn [snd UploadOut.filename UploadOut.photo_url files db_pool requests].
    split; [reflexivity|]. split; [reflexivity|]. split; [reflexivity|].
    split; [reflexivity|]. split; [reflexivity|].
    split; [apply uploaded_path_is_local|].
    split; [apply uploaded_path_is_local|].
    intros file' uuid4' w' out' Hout Hl Hne He.
    destruct (negb (truthy (content_type file'))
              || negb (startswith (or_empty (content_type file')) "image/"));
      [discriminate|].
    simpl in Hout. inversion Hout; subst out'. simpl in He.
    apply app_same_length_inj in He; [contradiction|exact Hl].
Qed.

(** ** Story Slot Manager: the slots *)

Lemma in_active_slot_split (s : Z) (r : Story.t) :
  in_active_slot s r = in_slot s r && Story.is_active r.
Proof.
  unfold in_active_slot, in_slot. destruct (Story.slot_number r); reflexivity.
Qed.

Lemma valid_slot (s : Z) : existsb (Z.eqb s) [1; 2; 3] = true <-> In s [1; 2; 3].
Proof.
  simpl. rewrite !orb_true_iff, !Z.eqb_eq. intuition congruence.
Qed.

(** After the deactivation the slot holds no active story, and the active
    stories of the other slots are the same. *)
Lemma active_in_slot_deactivate (s slot_number : Z) (rows : list Story.t) :
  active_in_slot s (sql_deactivate_slot slot_number rows)
  = if s =? slot_number then [] else active_in_slot s rows.
Proof.
  unfold active_in_slot, sql_deactivate_slot.
  induction rows as [|r rows IH].
  - simpl. destruct (s =? slot_number); reflexivity.
  - cbn [map List.filter]. rewrite IH. clear IH.
    assert (Hd : in_active_slot s (apply_assignment r (SetIsActive false)) = false).
    { rewrite in_active_slot_split. simpl. apply andb_false_r. }
    destruct (in_active_slot slot_number r) eqn:E.
    + rewrite Hd. destruct (Z.eqb_spec s slot_number) as [->|Hne]; [reflexivity|].
      assert (Hs : in_active_slot s r = false).
      { rewrite in_active_slot_split in *. unfold in_slot in *.
        destruct (Story.slot_number r) as [x|]; [|reflexivity].
        apply andb_true_iff in E. destruct E as [E _]. apply Z.eqb_eq in E.
        subst x. destruct (Z.eqb_spec slot_number s); [congruence|reflexivity]. }
      rewrite Hs. reflexivity.
    + destruct (Z.eqb_spec s slot_number) as [->|Hne]; [|reflexivity].
      rewrite E. reflexivity.
Qed.

(** The active stories after the deactivation are the active stories
    outside the slot. *)
Lemma active_deactivate (slot_number : Z) (rows : list Story.t) :
  List.filter Story.is_active (sql_deactivate_slot slot_number rows)
  = List.filter (fun r => negb (in_slot slot_number r))
      (List.filter Story.is_active rows).
Proof.
  unfold sql_deactivate_slot. induction rows as [|r rows IH]; [reflexivity|].
  cbn [map List.filter]. rewrite IH. clear IH. rewrite in_active_slot_split.
  destruct (in_slot slot_number r) eqn:Es, (Story.is_active r) eqn:Ea;
    cbn [andb apply_assignment Story.is_active List.filter negb];
    rewrite ?Ea, ?Es; reflexivity.
Qed.

Lemma filter_filter_length {A} (p q : A -> bool) (l : list A) :
  (length (List.filter p (List.filter q l)) <= length (List.filter p l))%nat.
Proof.
  induction l as [|x l IH]; simpl; [lia|].
  destruct (q x), (p x) eqn:E; simpl; rewrite ?E; simpl; lia.
Qed.

Lemma filter_map_length {A} (p : A -> bool) (f : A -> A) (l : list A) :
  (forall x, p (f x) = true -> p x = true) ->
  (length (List.filter p (map f l)) <= length (List.filter p l))%nat.
Proof.
  intros H. induction l as [|x l IH]; simpl; [lia|].
  destruct (p (f x)) eqn:E.
  - rewrite (H x E). simpl. lia.
  - destruct (p x); simpl; lia.
Qed.

(** A patch that does not switch a story on adds no active story to any
    slot. *)
Lemma patched_not_activated (p : StoryUpdate.t) (s : Z) (r : Story.t) :
  StoryUpdate.is_active p <> Some true ->
  in_active_slot s (patched p r) = true -> in_active_slot s r = true.
Proof.
  intros Hp. rewrite !in_active_slot_split. unfold in_slot, patched. simpl.
  destruct (StoryUpdate.is_active p) as [[|]|]; [congruence| |auto].
  rewrite andb_false_r. discriminate.
Qed.

(** What [create_story_in_slot] does for an admin, a valid slot and an
    initialised pool. *)
Lemma create_story_in_slot_ok
    (ADMIN_IDS : gset Z) (order_num_default : option Z) (user_id s : Z)
    (file_id : string) (caption : option string) (w : World) (d : DB) :
  user_id ∈ ADMIN_IDS -> In s [1; 2; 3] -> db_pool w = Some d ->
  let row := {| Story.id := stories_id_seq d; Story.file_id := file_id;
                Story.caption := caption; Story.slot_number := Some s;
                Story.order_num := order_num_default;
                Story.created_at := clock d; Story.is_active := true |} in
  exists d',
    create_story_in_slot ADMIN_IDS order_num_default user_id s file_id caption w
    = (Ok (slot_out row), with_db d' w)
    /\ stories d' = (sql_deactivate_slot s (stories d) ++ [row])%list.
Proof.
  intros Ha Hs Hd row. unfold create_story_in_slot.
  rewrite (is_admin_true _ _ Ha). apply valid_slot in Hs. rewrite Hs, Hd.
  simpl negb. cbv iota. eexists. split; reflexivity.
Qed.

(** The table after [create_story_in_slot], whoever calls and whatever the
    slot: unchanged, or the slot deactivated and one active story appended
    to it. *)
Lemma create_story_in_slot_stories
    (ADMIN_IDS : gset Z) (order_num_default : option Z) (user_id s : Z)
    (file_id : string) (caption : option string) (w : World) :
  let w' := snd (create_story_in_slot ADMIN_IDS order_num_default user_id s
                   file_id caption w) in
  w' = w
  \/ exists row,
       world_stories w' = (sql_deactivate_slot s (world_stories w) ++ [row])%list
       /\ Story.slot_number row = Some s /\ Story.is_active row = true.
Proof.
  unfold create_story_in_slot.
  destruct (negb (is_admin ADMIN_IDS user_id)); [left; reflexivity|].
  destruct (negb (existsb (Z.eqb s) [1; 2; 3])); [left; reflexivity|].
  unfold world_stories.
  destruct (db_pool w) as [d|]; [|left; reflexivity].
  right. eexists. simpl. split; [reflexivity|]. split; reflexivity.
Qed.

Lemma slot_invariant_fresh : slot_invariant (world_stories fresh_world).
Proof. intros s _. simpl. lia. Qed.

Lemma active_in_slot_app (s : Z) (rows rows' : list Story.t) :
  active_in_slot s (rows ++ rows')
  = (active_in_slot s rows ++ active_in_slot s rows')%list.
Proof. apply List.filter_app. Qed.

(** C1, as the code has it: the slot invariant survives a slot rotation, a
    deletion, an update that does not set [is_active] to true, and an
    insert by [create_story] when the default of column [slot_number] is
    none of the three slots. *)
Theorem slot_invariant_kept
    (ADMIN_IDS : gset Z) (slot_number_default order_num_default : option Z)
    (w : World) (req : Request) :
  slot_invariant (world_stories w) ->
  keeps_slots slot_number_default req ->
  slot_invariant
    (world_stories (serve ADMIN_IDS slot_number_default order_num_default w req)).
Proof.
  intros Hinv Hreq. destruct req as [story u|k p u|k u|u sl ref cap]; simpl in *.
  - unfold create_story. destruct (negb (is_admin ADMIN_IDS u)); [exact Hinv|].
    unfold world_stories in *. destruct (db_pool w) as [d|] eqn:Hd;
      [|cbn [snd]; rewrite Hd; exact Hinv].
    cbn [snd with_db db_pool executed stories].
    intros s Hs. rewrite active_in_slot_app, length_app.
    specialize (Hinv s Hs).
    assert (E : active_in_slot s
                  [{| Story.id := stories_id_seq d;
                      Story.file_id := StoryCreate.file_id story;
                      Story.caption := StoryCreate.caption story;
                      Story.slot_number := slot_number_default;
                      Story.order_num := Some (StoryCreate.order_num story);
                      Story.created_at := clock d;
                      Story.is_active := true |}] = []).
    { unfold active_in_slot, in_active_slot. cbn [List.filter Story.slot_number].
      destruct slot_number_default as [x|]; [|reflexivity].
      destruct (Z.eqb_spec x s) as [->|]; [|reflexivity].
      exfalso. exact (Hreq s eq_refl Hs). }
    rewrite E. simpl. lia.
  - unfold update_story. destruct (negb (is_admin ADMIN_IDS u)); [exact Hinv|].
    unfold world_stories in *. destruct (db_pool w) as [d|] eqn:Hd;
      [|cbn [snd]; rewrite Hd; exact Hinv].
    destruct (updates_of p) as [|a us] eqn:Eu.
    { cbn [snd]. rewrite Hd. exact Hinv. }
    rewrite <- Eu, sql_update_patched.
    assert (Hrows : forall s, In s [1; 2; 3] ->
              (length (active_in_slot s (patch_rows p k (stories d))) <= 1)%nat).
    { intros s Hs. specialize (Hinv s Hs).
      eapply Nat.le_trans; [|exact Hinv].
      apply filter_map_length. intros r.
      destruct (Story.id r =? k); [|auto].
      apply patched_not_activated. exact Hreq. }
    destruct (find _ (patch_rows p k (stories d))); exact Hrows.
  - unfold delete_story. destruct (negb (is_admin ADMIN_IDS u)); [exact Hinv|].
    unfold world_stories in *. destruct (db_pool w) as [d|] eqn:Hd;
      [|cbn [snd]; rewrite Hd; exact Hinv].
    assert (Hrows : forall s, In s [1; 2; 3] ->
              (length (active_in_slot s (sql_delete k (stories d))) <= 1)%nat).
    { intros s Hs. specialize (Hinv s Hs).
      eapply Nat.le_trans; [|exact Hinv]. apply filter_filter_length. }
    destruct (_ =? 0)%nat; exact Hrows.
  - destruct (create_story_in_slot_stories ADMIN_IDS order_num_default u sl
                ref cap w) as [->|(row & -> & Hslot & Hact)]; [exact Hinv|].
    intros s Hs. rewrite active_in_slot_app, active_in_slot_deactivate.
    rewrite length_app. specialize (Hinv s Hs).
    unfold active_in_slot at 2. cbn [List.filter].
    rewrite in_active_slot_split. unfold in_slot. rewrite Hslot, Hact.
    rewrite andb_true_r, (Z.eqb_sym sl s). destruct (s =? sl); simpl; lia.
Qed.

(** C1, as stated, fails: after two rotations of slot 1, an update that
    switches the first story on again leaves two active stories in the
    slot; the state is reached by write requests of an admin alone. *)
Lemma slot_invariant_broken_by_reactivation :
  reachable default_admins None None reactivated_world
  /\ ~ slot_invariant (world_stories reactivated_world).
Proof.
  split.
  - unfold reactivated_world. cbv [reactivation fold_left].
    do 3 apply reachable_serve. apply reachable_fresh.
  - intros H. specialize (H 1 (or_introl eq_refl)).
    vm_compute in H. lia.
Qed.

(** ** Story Slot Manager: rotation and listing *)

Lemma views_in_slot (s : Z) (rows : list Story.t) :
  List.filter (view_in_slot s) (map story_view rows)
  = map story_view (List.filter (in_slot s) rows).
Proof.
  induction rows as [|r rows IH]; [reflexivity|].
  cbn [map List.filter].
  change (view_in_slot s (story_view r)) with (in_slot s r).
  destruct (in_slot s r); cbn [map]; rewrite IH; reflexivity.
Qed.

Lemma filter_complement_nil {A} (p : A -> bool) (l : list A) :
  List.filter p (List.filter (fun x => negb (p x)) l) = [].
Proof.
  induction l as [|x l IH]; [reflexivity|].
  simpl. destruct (p x) eqn:E; simpl; rewrite ?E; exact IH.
Qed.

(** The active stories after a rotation: those outside the slot, then the
    new one. *)
Lemma active_after_rotation (s : Z) (rows : list Story.t) (row : Story.t) :
  Story.is_active row = true ->
  List.filter Story.is_active (sql_deactivate_slot s rows ++ [row])
  = (List.filter (fun r => negb (in_slot s r)) (List.filter Story.is_active rows)
     ++ [row])%list.
Proof.
  intros Ha. rewrite List.filter_app, active_deactivate.
  cbn [List.filter]. rewrite Ha. reflexivity.
Qed.

Lemma outside_three_slots (rows : list Story.t) (s1 s2 s3 : Z) :
  (forall r, In r rows -> in_slot s1 r || in_slot s2 r || in_slot s3 r = true) ->
  List.filter (fun r => negb (in_slot s3 r))
    (List.filter (fun r => negb (in_slot s2 r))
       (List.filter (fun r => negb (in_slot s1 r)) rows)) = [].
Proof.
  induction rows as [|r rows IH]; intros H; [reflexivity|].
  assert (Hr := H r (or_introl eq_refl)).
  assert (IH' := IH (fun x Hx => H x (or_intror Hx))). clear IH H.
  cbn [List.filter].
  destruct (in_slot s1 r) eqn:E1; cbn [negb List.filter]; [exact IH'|].
  destruct (in_slot s2 r) eqn:E2; cbn [negb List.filter]; [exact IH'|].
  destruct (in_slot s3 r) eqn:E3; cbn [negb List.filter]; [exact IH'|].
  discriminate.
Qed.

Lemma three_slots_in_order (s1 s2 s3 : Z) :
  Permutation [s1; s2; s3] [1; 2; 3] ->
  (s1 = 1 /\ s2 = 2 /\ s3 = 3) \/ (s1 = 1 /\ s2 = 3 /\ s3 = 2)
  \/ (s1 = 2 /\ s2 = 1 /\ s3 = 3) \/ (s1 = 2 /\ s2 = 3 /\ s3 = 1)
  \/ (s1 = 3 /\ s2 = 1 /\ s3 = 2) \/ (s1 = 3 /\ s2 = 2 /\ s3 = 1).
Proof.
  intros P.
  assert (F : forall x, In x [s1; s2; s3] -> In x [1; 2; 3])
    by (intros x; apply Permutation_in; exact P).
  assert (B : forall x, In x [1; 2; 3] -> In x [s1; s2; s3])
    by (intros x; apply Permutation_in, Permutation_sym; exact P).
  pose proof (F s1) as F1. pose proof (F s2) as F2. pose proof (F s3) as F3.
  pose proof (B 1) as B1. pose proof (B 2) as B2. pose proof (B 3) as B3.
  simpl in *. lia.
Qed.

Lemma get_stories_ok (w : World) (d : DB) :
  db_pool w = Some d ->
  fst (get_stories w) = Ok (map story_view (active_stories d)).
Proof. intros Hd. unfold get_stories. rewrite Hd. reflexivity. Qed.

Lemma active_rows_in_three_slots (rows : list Story.t) (s1 s2 s3 : Z) :
  active_in_slots rows ->
  (forall s, In s [1; 2; 3] -> In s [s1; s2; s3]) ->
  forall r, In r (List.filter Story.is_active rows) ->
    in_slot s1 r || in_slot s2 r || in_slot s3 r = true.
Proof.
  intros H Hs r Hr. apply filter_In in Hr. destruct Hr as [Hin Ha].
  destruct (H r Hin Ha) as (s & E & Hin3).
  unfold in_slot. rewrite E.
  destruct (Hs s Hin3) as [<-|[<-|[<-|[]]]]; rewrite Z.eqb_refl;
    rewrite ?orb_true_r; reflexivity.
Qed.

(** One rotation by an admin on an initialised pool, as a rewriting step:
    names the store after it and the active stories it holds. *)
Ltac rotate_once Ha Hd d' E S :=
  match goal with
  | |- context [create_story_in_slot ?A ?od ?u ?s ?ref ?cap ?w] =>
      let Hs := fresh "Hs" in
      assert (Hs : In s [1; 2; 3]) by (simpl; auto);
      destruct (create_story_in_slot_ok A od u s ref cap w _ Ha Hs Hd)
        as (d' & E & S);
      rewrite E; cbn [snd]; clear E Hs
  end.

(** C2, as the code has it: for an admin, [create_story_in_slot] refuses a
    slot outside 1, 2, 3 with [InvalidArgument] and leaves the world
    untouched; on an
    initialised pool, the listing that follows a rotation of slot [s] holds
    exactly one story of slot [s], whose reference is the one given; and
    when every active story sits in one of the three slots (as in a fresh
    store), rotating slots 1, 2 and 3 once each, in any order, makes the
    listing three stories with slot numbers 1, 2, 3 in this order. *)
Theorem replace_slot_then_list
    (ADMIN_IDS : gset Z) (order_num_default : option Z)
    (user_id : Z) (w : World) (d : DB) :
  user_id ∈ ADMIN_IDS ->
  db_pool w = Some d ->
  let replace_slot s ref cap w0 :=
    create_story_in_slot ADMIN_IDS order_num_default user_id s ref cap w0 in
  (forall s ref cap w0, ~ In s [1; 2; 3] ->
     signals (fst (replace_slot s ref cap w0)) InvalidArgument
     /\ snd (replace_slot s ref cap w0) = w0)
  /\ (forall s ref cap, In s [1; 2; 3] ->
        exists views v,
          fst (get_stories (snd (replace_slot s ref cap w))) = Ok views
          /\ List.filter (view_in_slot s) views = [v]
          /\ StoryView.file_id v = ref)
  /\ (forall s1 s2 s3 ref1 ref2 ref3 cap1 cap2 cap3,
        Permutation [s1; s2; s3] [1; 2; 3] ->
        active_in_slots (stories d) ->
        let w1 := snd (replace_slot s1 ref1 cap1 w) in
        let w2 := snd (replace_slot s2 ref2 cap2 w1) in
        let w3 := snd (replace_slot s3 ref3 cap3 w2) in
        exists views,
          fst (get_stories w3) = Ok views
          /\ map StoryView.slot_number views = [Some 1; Some 2; Some 3]
          /\ length views = 3%nat).
Proof.
  intros Ha Hd replace_slot. subst replace_slot. cbv beta.
  split; [|split].
  - intros s ref cap w0 Hs. unfold create_story_in_slot.
    rewrite (is_admin_true _ _ Ha).
    destruct (existsb (Z.eqb s) [1; 2; 3]) eqn:E.
    + exfalso. apply Hs. apply valid_slot. exact E.
    + simpl. split; reflexivity.
  - intros s ref cap Hs.
    destruct (create_story_in_slot_ok ADMIN_IDS order_num_default user_id s
                ref cap w d Ha Hs Hd) as (d' & E & S).
    rewrite E. cbn [snd].
    rewrite (get_stories_ok (with_db d' w) d' eq_refl).
    eexists. eexists. split; [reflexivity|].
    rewrite views_in_slot. unfold active_stories.
    match goal with
    | |- map story_view ?l = _ /\ _ =>
        assert (Hl : Permutation
                       [{| Story.id := stories_id_seq d; Story.file_id := ref;
                           Story.caption := cap; Story.slot_number := Some s;
                           Story.order_num := order_num_default;
                           Story.created_at := clock d;
                           Story.is_active := true |}] l)
    end.
    { eapply perm_trans;
        [|apply filter_perm, Permutation_sym, order_by_perm].
      rewrite S, active_after_rotation by reflexivity.
      rewrite List.filter_app, filter_complement_nil.
      cbn [List.filter app]. unfold in_slot. cbn [Story.slot_number].
      rewrite Z.eqb_refl. apply Permutation_refl. }
    apply Permutation_length_1_inv in Hl. rewrite Hl.
    split; reflexivity.
  - intros s1 s2 s3 ref1 ref2 ref3 cap1 cap2 cap3 P Hact.
    cbv zeta.
    assert (Hall : forall s, In s [1; 2; 3] -> In s [s1; s2; s3])
      by (intros s; apply Permutation_in, Permutation_sym; exact P).
    pose proof (active_rows_in_three_slots _ s1 s2 s3 Hact Hall) as Hout.
    apply outside_three_slots in Hout. clear Hall Hact.
    apply three_slots_in_order in P.
    destruct P as [(-> & -> & ->)|[(-> & -> & ->)|[(-> & -> & ->)|
                  [(-> & -> & ->)|[(-> & -> & ->)|(-> & -> & ->)]]]]];
      rotate_once Ha Hd d1 E1 S1;
      assert (Hd1 : db_pool (with_db d1 w) = Some d1) by reflexivity;
      rotate_once Ha Hd1 d2 E2 S2;
      assert (Hd2 : db_pool (with_db d2 (with_db d1 w)) = Some d2) by reflexivity;
      rotate_once Ha Hd2 d3 E3 S3;
      rewrite (get_stories_ok (with_db d3 (with_db d2 (with_db d1 w))) d3 eq_refl);
      eexists; (split; [reflexivity|]);
      unfold active_stories;
      rewrite S3, active_after_rotation by reflexivity;
      rewrite S2, active_after_rotation by reflexivity;
      rewrite S1, active_after_rotation by reflexivity;
      rewrite !List.filter_app, Hout;
      split; reflexivity.
Qed.

(** C2, as stated, fails on a store that holds an active story outside
    the three slots: after a [create_story] (the default of [slot_number]
    being NULL) and one rotation of each of the slots 1, 2, 3, the listing
    has four stories, the one without slot last. *)
Lemma four_stories_after_three_rotations :
  reachable default_admins None None crowded_world
  /\ (exists views,
        fst (get_stories crowded_world) = Ok views
        /\ map StoryView.slot_number views = [Some 1; Some 2; Some 3; None]
        /\ length views = 4%nat)
  /\ ~ active_in_slots (world_stories unslotted_world).
Proof.
  split; [|split].
  - unfold crowded_world, unslotted_world. cbv [fold_left].
    do 4 apply reachable_serve. apply reachable_fresh.
  - eexists. split; [vm_compute; reflexivity|]. split; reflexivity.
  - intros H.
    destruct (H {| Story.id := 1; Story.file_id := "AgACAgIAAxkBAAIF";
                   Story.caption := Some "Teaser"; Story.slot_number := None;
                   Story.order_num := Some 0; Story.created_at := 0;
                   Story.is_active := true |}) as (s & E & _).
    + vm_compute. left. reflexivity.
    + reflexivity.
    + discriminate E.
Qed.

(** ** Sample runs *)

Lemma default_admin_listed : 825042510 ∈ default_admins.
Proof. apply (proj1 (bool_decide_spec _)). vm_compute. exact I. Qed.

Lemma stranger_not_listed : 7 ∉ default_admins.
Proof. apply (proj1 (bool_decide_eq_false _)). vm_compute. reflexivity. Qed.

(** The invariant is kept when the only story of slot 2 is switched off. *)
Lemma slot_invariant_kept_witness :
  slot_invariant
    (world_stories
       (serve default_admins None None rotated_world
          (PutStory 1 {| StoryUpdate.caption := None;
                         StoryUpdate.order_num := None;
                         StoryUpdate.is_active := Some false |} 825042510))).
Proof.
  apply slot_invariant_kept.
  - apply (slot_invariant_kept default_admins None None fresh_world).
    + apply slot_invariant_fresh.
    + exact I.
  - simpl. discriminate.
Defined.

(** Slots 2, 3, 1 rotated in this order on the fresh store. *)
Lemma replace_slot_then_list_witness :
  exists views,
    fst (get_stories
           (snd (create_story_in_slot default_admins None 825042510 1 "c" None
              (snd (create_story_in_slot default_admins None 825042510 3 "b" None
                 (snd (create_story_in_slot default_admins None 825042510 2 "a"
                         None fresh_world)))))))
    = Ok views
    /\ map StoryView.slot_number views = [Some 1; Some 2; Some 3]
    /\ length views = 3%nat.
Proof.
  destruct (replace_slot_then_list default_admins None 825042510 fresh_world _
              default_admin_listed eq_refl) as (_ & _ & H).
  apply (H 2 3 1 "a" "b" "c" None None None).
  - eapply perm_trans; [apply perm_skip, perm_swap|apply perm_swap].
  - intros r [].
Defined.

(** A stranger creates nothing. *)
Lemma non_admin_changes_nothing_witness :
  snd (create_story default_admins None
         {| StoryCreate.file_id := "AgACAgIAAxkBAAIE";
            StoryCreate.caption := Some "cap"; StoryCreate.order_num := 0 |}
         7 fresh_world) = fresh_world.
Proof.
  destruct (non_admin_changes_nothing default_admins None None plain_suffix 7
              fresh_world stranger_not_listed) as (H & _).
  apply H.
Defined.

(** [{order_num: 5}] changes the order number of story 1 and nothing else. *)
Lemma update_story_applies_patch_witness :
  world_stories (snd (update_story default_admins 1 order_patch 825042510
                        rotated_world))
  = [ {| Story.id := 1; Story.file_id := "AgACAgIAAxkBAAIC";
         Story.caption := Some "Friday"; Story.slot_number := Some 2;
         Story.order_num := Some 5; Story.created_at := 0;
         Story.is_active := true |} ].
Proof.
  destruct (update_story_applies_patch default_admins rotated_world _ 1
              825042510 order_patch default_admin_listed eq_refl) as (_ & H).
  destruct H as (H & _).
  - intros (_ & E & _). discriminate E.
  - rewrite H. vm_compute. reflexivity.
Defined.

(** The uploaded PNG lands in the upload directory and its path is local
    to the story listing. *)
Lemma upload_story_photo_roundtrip_witness :
  exists out,
    fst (upload_story_photo default_admins plain_suffix 825042510 png_upload
           drawn_uuid fresh_world) = Ok out
    /\ UploadOut.photo_url out
       = "/uploads/stories/3f2b8c1e-7d4a-4e0b-9a6f-5c1d2e3f4a5b.png"
    /\ story_is_local_file (UploadOut.photo_url out) = true.
Proof.
  destruct (upload_story_photo_roundtrip default_admins plain_suffix 825042510
              png_upload drawn_uuid fresh_world default_admin_listed)
    as (_ & H).
  destruct H as (out & E & Hn & Hu & _ & _ & _ & Hl & _).
  - exists "png". reflexivity.
  - exists out. split; [exact E|]. split; [|exact Hl].
    rewrite Hu, Hn. vm_compute. reflexivity.
Defined.

(** The retired poster is still returned by its id. *)
Lemma get_poster_ignores_is_active_witness :
  fst (get_poster 2 poster_world) = Ok retired_poster.
Proof.
  destruct (get_poster_ignores_is_active poster_world _ 2 eq_refl)
    as (_ & _ & H).
  apply (H retired_poster).
  - repeat constructor; simpl; lia.
  - right. left. reflexivity.
  - reflexivity.
  - reflexivity.
Defined.

(** * Further properties of the handlers *)

(** ** [ORDER BY] sorts *)

Section OrderBySorts.

Context {A : Type} (le : A -> A -> bool).
Hypothesis le_total : forall a b, le a b = true \/ le b a = true.
Hypothesis le_trans : forall a b c, le a b = true -> le b c = true -> le a c = true.

Lemma insert_sorted_sorted (x : A) (l : list A) :
  StronglySorted (fun a b => le a b = true) l ->
  StronglySorted (fun a b => le a b = true) (insert_sorted le x l).
Proof.
  induction 1 as [|y l Hl IH Hy]; simpl.
  - constructor; constructor.
  - destruct (le x y) eqn:E.
    + constructor; [constructor; assumption|].
      constructor; [exact E|].
      apply List.Forall_forall. intros z Hz.
      rewrite List.Forall_forall in Hy.
      eapply le_trans; [exact E|apply Hy; exact Hz].
    + constructor; [exact IH|].
      apply List.Forall_forall. intros z Hz.
      apply (Permutation_in _ (insert_sorted_perm le x l)) in Hz.
      destruct Hz as [<-|Hz].
      * destruct (le_total x y) as [H|H]; [congruence|exact H].
      * rewrite List.Forall_forall in Hy. apply Hy. exact Hz.
Qed.

Lemma order_by_sorted (l : list A) :
  StronglySorted (fun a b => le a b = true) (order_by le l).
Proof.
  induction l as [|x l IH]; simpl.
  - constructor.
  - apply insert_sorted_sorted. exact IH.
Qed.

End OrderBySorts.

Lemma StronglySorted_map {A B} (R : A -> A -> Prop) (R' : B -> B -> Prop)
    (f : A -> B) (l : list A) :
  (forall a b, R a b -> R' (f a) (f b)) ->
  StronglySorted R l -> StronglySorted R' (map f l).
Proof.
  intros H. induction 1 as [|x l Hl IH Hx]; simpl; constructor.
  - exact IH.
  - apply List.Forall_forall. intros y Hy. apply in_map_iff in Hy.
    destruct Hy as (z & <- & Hz). apply H.
    rewrite List.Forall_forall in Hx. apply Hx. exact Hz.
Qed.

Lemma active_posters_sorted (d : DB) :
  StronglySorted (fun a b => created_at_desc a b = true) (active_posters d).
Proof.
  apply order_by_sorted; unfold created_at_desc.
  - intros a b. rewrite !Z.leb_le. lia.
  - intros a b c. rewrite !Z.leb_le. lia.
Qed.

Lemma slot_number_asc_total (a b : Story.t) :
  slot_number_asc a b = true \/ slot_number_asc b a = true.
Proof.
  unfold slot_number_asc.
  destruct (Story.slot_number a), (Story.slot_number b); auto.
  rewrite !Z.leb_le. lia.
Qed.

Lemma slot_number_asc_trans (a b c : Story.t) :
  slot_number_asc a b = true -> slot_number_asc b c = true ->
  slot_number_asc a c = true.
Proof.
  unfold slot_number_asc.
  destruct (Story.slot_number a), (Story.slot_number b), (Story.slot_number c);
    try discriminate; auto.
  rewrite !Z.leb_le. lia.
Qed.

(** ** Poster Reader: the listing and the latest poster *)

(** X1: [get_posters] answers with the views of exactly the active posters,
    each once, ordered from the newest to the oldest [created_at]. *)
Theorem get_posters_newest_first (w : World) (d : DB) :
  db_pool w = Some d ->
  exists views,
    fst (get_posters w) = Ok views
    /\ Permutation views
         (map poster_view (List.filter Poster.is_active (posters d)))
    /\ StronglySorted newest_first views.
Proof.
  intros Hd. unfold get_posters. rewrite Hd. eexists. split; [reflexivity|].
  split.
  - apply Permutation_map. unfold active_posters. apply order_by_perm.
  - eapply StronglySorted_map; [|apply active_posters_sorted].
    intros a b H. unfold created_at_desc in H. apply Z.leb_le in H. exact H.
Qed.

(** X2: [get_latest_poster] signals [NotFound] exactly when no poster is
    active and answers with a view as soon as one is; the view it returns
    is the view of an active poster, no active poster is newer, and it is
    one of the entries of the listing of [get_posters], none of which is
    newer.  Which one of several newest posters is returned is left
    open. *)
Theorem get_latest_poster_is_newest (w : World) (d : DB) :
  db_pool w = Some d ->
  (signals (fst (get_latest_poster w)) NotFound <->
     forall row, In row (posters d) -> Poster.is_active row = false)
  /\ ((exists row, In row (posters d) /\ Poster.is_active row = true) ->
      exists view, fst (get_latest_poster w) = Ok view)
  /\ (forall view, fst (get_latest_poster w) = Ok view ->
        (exists row, In row (posters d) /\ Poster.is_active row = true
                     /\ view = poster_view row)
        /\ (forall row, In row (posters d) -> Poster.is_active row = true ->
              Poster.created_at row <= PosterView.created_at view)
        /\ (exists views,
              fst (get_posters w) = Ok views /\ In view views
              /\ forall v, In v views ->
                   PosterView.created_at v <= PosterView.created_at view)).
Proof.
  intros Hd. unfold get_latest_poster, get_posters. rewrite Hd.
  pose proof (active_posters_In d) as Hin.
  pose proof (active_posters_sorted d) as Hs.
  destruct (active_posters d) as [|r rest]; cbn [fst].
  - split; [|split].
    + split; [|reflexivity]. intros _ row Hr.
      destruct (Poster.is_active row) eqn:E; [|reflexivity].
      exfalso. apply (proj2 (Hin row)). split; assumption.
    + intros (row & Hr & Ha). exfalso. apply (proj2 (Hin row)).
      split; assumption.
    + intros view H. discriminate H.
  - assert (Hnew : forall row, In row (r :: rest) ->
              Poster.created_at row <= Poster.created_at r).
    { intros row [<-|Hrest]; [lia|].
      inversion Hs as [|? ? _ Hall]; subst.
      rewrite List.Forall_forall in Hall. specialize (Hall row Hrest).
      unfold created_at_desc in Hall. apply Z.leb_le in Hall. exact Hall. }
    destruct (proj1 (Hin r) (or_introl eq_refl)) as [Hr Ha].
    split; [|split].
    + split; [contradiction|]. intros H. exfalso.
      rewrite (H r Hr) in Ha. discriminate.
    + intros _. eexists. reflexivity.
    + intros view H. inversion H; subst view. clear H.
      split; [exists r; auto|]. split.
      * intros row Hrow Hact. cbn [poster_view PosterView.created_at].
        apply Hnew. apply Hin. split; assumption.
      * eexists. split; [reflexivity|]. split; [left; reflexivity|].
        intros v Hv. apply in_map_iff in Hv. destruct Hv as (row & <- & Hrow).
        cbn [poster_view PosterView.created_at]. apply Hnew. exact Hrow.
Qed.

Lemma startswith_slash_cons (s : string) : startswith (String "/" s) "/" = true.
Proof. rewrite startswith_cons. destruct s; reflexivity. Qed.

Lemma with_leading_slash_starts (file_id : string) :
  startswith (with_leading_slash file_id) "/" = true.
Proof.
  unfold with_leading_slash.
  destruct (startswith file_id "/") eqn:E; [exact E|].
  apply startswith_slash_cons.
Qed.

(** X3: every photo URL handed out by the two listings is a path of this
    service: it starts with a slash, and it is either the file id itself,
    the file id behind one more slash, or the proxy path of the file id. *)
Theorem listed_photo_urls_are_paths (w : World) :
  (forall views view,
     fst (get_posters w) = Ok views -> In view views ->
     startswith (PosterView.photo_url view) "/" = true
     /\ (PosterView.photo_url view = PosterView.file_id view
         \/ PosterView.photo_url view = "/" ++ PosterView.file_id view
         \/ PosterView.photo_url view = "/photo/" ++ PosterView.file_id view))
  /\ (forall views view,
        fst (get_stories w) = Ok views -> In view views ->
        startswith (StoryView.photo_url view) "/" = true
        /\ (StoryView.photo_url view = StoryView.file_id view
            \/ StoryView.photo_url view = "/" ++ StoryView.file_id view
            \/ StoryView.photo_url view = "/photo/" ++ StoryView.file_id view)).
Proof.
  split; intros views view Hv Hin.
  - unfold get_posters in Hv. destruct (db_pool w) as [d|]; [|discriminate].
    simpl in Hv. inversion Hv; subst views. clear Hv.
    apply in_map_iff in Hin. destruct Hin as (row & <- & _).
    cbn [poster_view PosterView.photo_url PosterView.file_id].
    unfold poster_photo_url, with_leading_slash.
    destruct (poster_is_local_file (Poster.file_id row)).
    + destruct (startswith (Poster.file_id row) "/") eqn:E; split; auto.
      apply startswith_slash_cons.
    + split; [reflexivity|auto].
  - unfold get_stories in Hv. destruct (db_pool w) as [d|]; [|discriminate].
    simpl in Hv. inversion Hv; subst views. clear Hv.
    apply in_map_iff in Hin. destruct Hin as (row & <- & _).
    cbn [story_view StoryView.photo_url StoryView.file_id].
    unfold story_photo_url, with_leading_slash.
    destruct (story_is_local_file (Story.file_id row)).
    + destruct (startswith (Story.file_id row) "/") eqn:E; split; auto.
      apply startswith_slash_cons.
    + split; [reflexivity|auto].
Qed.

Lemma or_empty_some (c : string) : or_empty (Some c) = c.
Proof. unfold or_empty, or_else. destruct (String.eqb_spec c ""); congruence. Qed.

(** X4: the view of a poster never has a null caption (a missing one
    becomes the empty string); its title holds no newline; and caption,
    title and subtitle fit together: with a newline in the caption, the
    caption is the title, a newline and the subtitle, and without one it is
    the title and the subtitle is empty. *)
Theorem poster_caption_splits (row : Poster.t) :
  let v := poster_view row in
  PosterView.caption v = or_empty (Poster.caption row)
  /\ occurs newline (PosterView.title v) = false
  /\ (if occurs newline (PosterView.caption v)
      then PosterView.caption v
           = PosterView.title v ++ String newline (PosterView.subtitle v)
      else PosterView.caption v = PosterView.title v
           /\ PosterView.subtitle v = "").
Proof.
  cbv zeta. unfold poster_view.
  cbn [PosterView.caption PosterView.title PosterView.subtitle].
  set (c := or_empty (Poster.caption row)).
  split; [reflexivity|]. unfold split1.
  destruct (break_at newline c) as [[h t]|] eqn:B.
  - apply break_at_some in B. destruct B as [E Hh].
    cbn [title_of subtitle_of length nth]. simpl Z.ltb. cbv iota.
    split; [exact Hh|].
    assert (Ho : occurs newline c = true).
    { destruct (occurs newline c) eqn:O; [reflexivity|].
      apply break_at_none in O. rewrite E in O.
      clear -O Hh. exfalso. revert O Hh.
      induction h as [|a h IH]; simpl.
      - discriminate.
      - destruct (Ascii.eqb a newline); [discriminate|].
        destruct (break_at newline (h ++ String newline t)) as [[x y]|];
          [discriminate|]. intros _ Hh. apply IH; [reflexivity|exact Hh]. }
    rewrite Ho. exact E.
  - cbn [title_of subtitle_of length nth]. simpl Z.ltb. cbv iota.
    apply break_at_none in B. rewrite B. repeat split; reflexivity || exact B.
Qed.

(** ** Story listing *)

(** X5: [get_stories] answers with the views of exactly the active stories,
    each once, ordered by ascending slot number, the stories without a
    slot number last. *)
Theorem get_stories_by_slot (w : World) (d : DB) :
  db_pool w = Some d ->
  exists views,
    fst (get_stories w) = Ok views
    /\ Permutation views
         (map story_view (List.filter Story.is_active (stories d)))
    /\ StronglySorted by_slot views.
Proof.
  intros Hd. unfold get_stories. rewrite Hd. eexists. split; [reflexivity|].
  split.
  - apply Permutation_map. unfold active_stories. apply order_by_perm.
  - eapply StronglySorted_map;
      [|apply order_by_sorted;
        [apply slot_number_asc_total|apply slot_number_asc_trans]].
    intros a b H. unfold slot_number_asc in H. unfold by_slot, story_view.
    cbn [StoryView.slot_number].
    destruct (Story.slot_number a), (Story.slot_number b);
      try exact I; try discriminate.
    apply Z.leb_le. exact H.
Qed.

(** ** What the readers leave alone *)

Lemma reads_only_queried (q : Stmt) (d : DB) (w : World) :
  db_pool w = Some d -> reads_only w (with_db (queried q d) w).
Proof.
  intros Hd. unfold reads_only. rewrite Hd. simpl.
  repeat split; reflexivity.
Qed.

Lemma reads_only_refl (w : World) : reads_only w w.
Proof.
  unfold reads_only. destruct (db_pool w); repeat split; reflexivity.
Qed.

(** X6: the read handlers change no row, file or directory.  The four
    database readers leave the tables, the serial, the disk and the list of
    Telegram requests as they were; the photo proxy leaves the store (its
    statement log included) and the disk as they were; serving an uploaded
    photo leaves the whole world as it was. *)
Theorem readers_write_nothing
    (BOT_TOKEN : string) (http_get : string -> string + Response)
    (poster_id : Z) (file_id filename : string) (w : World) :
  (forall w', In w' [snd (get_posters w); snd (get_latest_poster w);
                     snd (get_poster poster_id w); snd (get_stories w)] ->
     reads_only w w' /\ requests w' = requests w)
  /\ (let w' := snd (get_photo BOT_TOKEN http_get file_id w) in
      db_pool w' = db_pool w /\ files w' = files w
      /\ directories w' = directories w)
  /\ snd (get_story_photo filename w) = w.
Proof.
  split; [|split].
  - intros w' Hw'. simpl in Hw'.
    unfold get_posters, get_latest_poster, get_poster, get_stories in Hw'.
    destruct (db_pool w) as [d|] eqn:Hd.
    + destruct (active_posters d), (find _ (posters d));
        destruct Hw' as [<-|[<-|[<-|[<-|[]]]]]; cbn [snd];
        (split; [apply reads_only_queried; exact Hd|reflexivity]).
    + destruct Hw' as [<-|[<-|[<-|[<-|[]]]]]; cbn [snd];
        (split; [apply reads_only_refl|reflexivity]).
  - cbv zeta. unfold get_photo.
    repeat match goal with
           | |- context [if ?b then _ else _] => destruct b
           | |- context [match ?x with inl _ => _ | inr _ => _ end] => destruct x
           | |- context [match ?x with Some _ => _ | None => _ end] => destruct x
           | |- context [match ?x with (_, _) => _ end] => destruct x
           end;
      repeat split.
  - unfold get_story_photo.
    destruct (negb (story_photo_exists filename w)); reflexivity.
Qed.

(** ** Story Slot Manager: insert and delete *)

(** X7: for an admin on an initialised pool, [create_story] answers with an
    active story that carries the serial's next number and the fields of
    the request; the table is the old one with this one row appended; and
    the listing that follows shows the new story. *)
Theorem create_story_appends
    (ADMIN_IDS : gset Z) (slot_number_default : option Z)
    (story : StoryCreate.t) (user_id : Z) (w : World) (d : DB) :
  user_id ∈ ADMIN_IDS ->
  db_pool w = Some d ->
  let r := create_story ADMIN_IDS slot_number_default story user_id w in
  exists out row,
    fst r = Ok out
    /\ world_stories (snd r) = (stories d ++ [row])%list
    /\ story_out row = out
    /\ StoryOut.id out = stories_id_seq d
    /\ StoryOut.file_id out = StoryCreate.file_id story
    /\ StoryOut.caption out = StoryCreate.caption story
    /\ StoryOut.order_num out = Some (StoryCreate.order_num story)
    /\ StoryOut.is_active out = true
    /\ exists views,
         fst (get_stories (snd r)) = Ok views /\ In (story_view row) views.
Proof.
  intros Ha Hd r. subst r. unfold create_story.
  rewrite (is_admin_true _ _ Ha), Hd. simpl negb. cbv iota.
  eexists. eexists. split; [reflexivity|].
  cbn [snd fst]. unfold world_stories. cbn [db_pool with_db executed stories].
  do 7 (split; [reflexivity|]).
  unfold get_stories. cbn [db_pool with_db fst]. eexists. split; [reflexivity|].
  apply in_map. unfold active_stories. apply order_by_In.
  cbn [executed stories]. apply filter_In. split; [|reflexivity].
  apply in_or_app. right. left. reflexivity.
Qed.

Lemma deleted_none (p : Story.t -> bool) (rows : list Story.t) :
  (length rows - length (List.filter p rows) =? 0)%nat = true
  <-> forall r, In r rows -> p r = true.
Proof.
  rewrite Nat.eqb_eq. induction rows as [|x rows IH]; simpl.
  - split; [intros _ r []|reflexivity].
  - pose proof (List.filter_length_le p rows) as Hle.
    destruct (p x) eqn:E; simpl.
    + rewrite IH. split.
      * intros H r [<-|Hr]; auto.
      * intros H r Hr. apply H. right. exact Hr.
    + split; [lia|]. intros H. specialize (H x (or_introl eq_refl)). congruence.
Qed.

(** X8: for an admin on an initialised pool, [delete_story] leaves exactly
    the rows with another id, in their order; it answers with the success
    message when some row had the id and signals [NotFound], changing no
    row, when none had; and deleting the same id again signals
    [NotFound]. *)
Theorem delete_story_removes
    (ADMIN_IDS : gset Z) (story_id user_id : Z) (w : World) (d : DB) :
  user_id ∈ ADMIN_IDS ->
  db_pool w = Some d ->
  let r := delete_story ADMIN_IDS story_id user_id w in
  world_stories (snd r)
  = List.filter (fun row => negb (Story.id row =? story_id)) (stories d)
  /\ (forall row, In row (world_stories (snd r)) <->
        In row (stories d) /\ Story.id row <> story_id)
  /\ ((exists row, In row (stories d) /\ Story.id row = story_id) ->
      fst r = Ok "Story deleted successfully")
  /\ ((forall row, In row (stories d) -> Story.id row <> story_id) ->
      signals (fst r) NotFound /\ world_stories (snd r) = stories d)
  /\ signals (fst (delete_story ADMIN_IDS story_id user_id (snd r))) NotFound.
Proof.
  intros Ha Hd r. subst r. unfold delete_story.
  rewrite (is_admin_true _ _ Ha), Hd. simpl negb. cbv iota.
  unfold sql_delete.
  set (keep := fun row : Story.t => negb (Story.id row =? story_id)).
  assert (Hkeep : forall row, keep row = true <-> Story.id row <> story_id).
  { intros row. unfold keep. rewrite negb_true_iff. apply Z.eqb_neq. }
  assert (Hw : forall b (x y : Result string) w1,
             world_stories (snd (if b : bool then (x, with_db w1 w)
                                 else (y, with_db w1 w))) = stories w1).
  { intros [|]; reflexivity. }
  split; [|split; [|split; [|split]]].
  - rewrite Hw. reflexivity.
  - intros row. rewrite Hw. cbn [executed stories].
    rewrite filter_In, Hkeep. reflexivity.
  - intros (row & Hin & Hid).
    destruct (_ =? 0)%nat eqn:E; [|reflexivity].
    exfalso. apply (proj1 (deleted_none keep (stories d))) with (r := row) in E;
      [|exact Hin].
    apply Hkeep in E. contradiction.
  - intros Hnone.
    assert (E : (length (stories d) - length (List.filter keep (stories d)) =? 0)%nat
                = true).
    { apply deleted_none. intros row Hin. apply Hkeep. apply Hnone. exact Hin. }
    rewrite E. split; [reflexivity|].
    cbn [snd]. unfold world_stories. cbn [db_pool with_db executed stories].
    apply forallb_filter_id. apply forallb_forall. intros row Hin.
    apply Hkeep. apply Hnone. exact Hin.
  - assert (Hp : forall b (x y : Result string) w1,
               db_pool (snd (if b : bool then (x, with_db w1 w)
                             else (y, with_db w1 w))) = Some w1).
    { intros [|]; reflexivity. }
    rewrite Hp. cbn [executed stories].
    assert (E : (length (List.filter keep (stories d))
                 - length (List.filter keep (List.filter keep (stories d))) =? 0)%nat
                = true).
    { apply deleted_none. intros row Hin. apply filter_In in Hin. apply Hin. }
    rewrite E. reflexivity.
Qed.

(** ** Story Slot Manager: updates compose *)

Lemma patched_twice (p : StoryUpdate.t) (r : Story.t) :
  patched p (patched p r) = patched p r.
Proof. destruct p as [[c|] [n|] [b|]]; reflexivity. Qed.

Lemma patch_rows_twice (p : StoryUpdate.t) (story_id : Z) (rows : list Story.t) :
  patch_rows p story_id (patch_rows p story_id rows) = patch_rows p story_id rows.
Proof.
  unfold patch_rows. rewrite map_map. apply map_ext. intros r.
  destruct (Story.id r =? story_id) eqn:E.
  - rewrite patched_id, E. apply patched_twice.
  - rewrite E. reflexivity.
Qed.

(** What [update_story] does for an admin on an initialised pool. *)
Lemma update_story_ok
    (ADMIN_IDS : gset Z) (story_id user_id : Z) (p : StoryUpdate.t)
    (w : World) (d : DB) :
  user_id ∈ ADMIN_IDS -> db_pool w = Some d -> ~ empty_patch p ->
  exists d',
    update_story ADMIN_IDS story_id p user_id w
    = (match find (fun r => Story.id r =? story_id) (patch_rows p story_id (stories d)) with
       | None => http_error 404 "Story not found"
       | Some row => Ok (story_out row)
       end, with_db d' w)
    /\ stories d' = patch_rows p story_id (stories d).
Proof.
  intros Ha Hd Hne. unfold update_story.
  rewrite (is_admin_true _ _ Ha), Hd. simpl negb. cbv iota.
  destruct (updates_of p) as [|u us] eqn:Eu.
  { exfalso. apply Hne. apply updates_of_nil. exact Eu. }
  rewrite <- Eu, sql_update_patched.
  exists (executed (UpdateStory (updates_of p) story_id)
            (patch_rows p story_id (stories d)) (stories_id_seq d) d).
  split; [|reflexivity].
  destruct (find _ (patch_rows p story_id (stories d))); reflexivity.
Qed.

(** X9: sending the same update twice is the same as sending it once: for
    an admin on an initialised pool the second call gives the answer of
    the first and leaves the table as the first left it. *)
Theorem update_story_idempotent
    (ADMIN_IDS : gset Z) (story_id user_id : Z) (p : StoryUpdate.t)
    (w : World) (d : DB) :
  user_id ∈ ADMIN_IDS ->
  db_pool w = Some d ->
  let r1 := update_story ADMIN_IDS story_id p user_id w in
  let r2 := update_story ADMIN_IDS story_id p user_id (snd r1) in
  fst r2 = fst r1 /\ world_stories (snd r2) = world_stories (snd r1).
Proof.
  intros Ha Hd. cbv zeta.
  destruct (updates_of p) as [|u us] eqn:Eu.
  - assert (E0 : update_story ADMIN_IDS story_id p user_id w
                 = (http_error 400 "No fields to update", w)).
    { unfold update_story. rewrite (is_admin_true _ _ Ha), Hd, Eu. reflexivity. }
    rewrite E0. cbn [snd]. rewrite E0. split; reflexivity.
  - assert (Hne : ~ empty_patch p).
    { intros He. apply updates_of_nil in He. congruence. }
    destruct (update_story_ok ADMIN_IDS story_id user_id p w d Ha Hd Hne)
      as (d1 & E1 & S1).
    rewrite E1. cbn [snd fst].
    destruct (update_story_ok ADMIN_IDS story_id user_id p (with_db d1 w) d1
                Ha eq_refl Hne) as (d2 & E2 & S2).
    rewrite E2. cbn [snd fst]. unfold world_stories. cbn [db_pool with_db].
    rewrite S2, S1, patch_rows_twice. split; reflexivity.
Qed.

(** X10: an update that sets [is_active] to false takes the story out of
    the listing and nothing else: the listing that follows holds exactly
    the views listed before whose id is another one. *)
Theorem deactivated_story_is_unlisted
    (ADMIN_IDS : gset Z) (story_id user_id : Z) (p : StoryUpdate.t)
    (w : World) (d : DB) :
  user_id ∈ ADMIN_IDS ->
  db_pool w = Some d ->
  StoryUpdate.is_active p = Some false ->
  let w' := snd (update_story ADMIN_IDS story_id p user_id w) in
  exists views views',
    fst (get_stories w) = Ok views
    /\ fst (get_stories w') = Ok views'
    /\ forall view, In view views' <->
         In view views /\ StoryView.id view <> story_id.
Proof.
  intros Ha Hd Hp. cbv zeta.
  assert (Hne : ~ empty_patch p).
  { intros (_ & _ & He). congruence. }
  destruct (update_story_ok ADMIN_IDS story_id user_id p w d Ha Hd Hne)
    as (d1 & E1 & S1).
  rewrite E1. cbn [snd].
  rewrite (get_stories_ok w d Hd), (get_stories_ok (with_db d1 w) d1 eq_refl).
  eexists. eexists. split; [reflexivity|]. split; [reflexivity|].
  intros view. unfold active_stories. rewrite !in_map_iff. split.
  - intros (r' & <- & Hr'). apply order_by_In, filter_In in Hr'.
    destruct Hr' as [Hin Hact]. rewrite S1 in Hin.
    unfold patch_rows in Hin. apply in_map_iff in Hin.
    destruct Hin as (r & <- & Hr).
    destruct (Story.id r =? story_id) eqn:E.
    + exfalso. unfold patched in Hact. cbn [Story.is_active] in Hact.
      rewrite Hp in Hact. discriminate.
    + split.
      * exists r. split; [reflexivity|].
        apply order_by_In, filter_In. split; assumption.
      * cbn [story_view StoryView.id]. apply Z.eqb_neq. exact E.
  - intros ((r & <- & Hr) & Hid). apply order_by_In, filter_In in Hr.
    destruct Hr as [Hin Hact]. cbn [story_view StoryView.id] in Hid.
    exists r. split; [reflexivity|].
    apply order_by_In, filter_In. split; [|exact Hact].
    rewrite S1. unfold patch_rows. apply in_map_iff. exists r.
    apply Z.eqb_neq in Hid. rewrite Hid. split; [reflexivity|exact Hin].
Qed.

(** ** The pool that is not initialised *)

(** X11: while the pool is not initialised, every handler that needs the
    store signals [Unavailable] and leaves the world as it is: the four
    readers for everyone, the writers for an admin, [update_story] also for
    a patch without fields (the pool is tested before the patch).  The slot
    number is tested before the pool, so a slot outside 1, 2, 3 still gives
    [InvalidArgument]; and an upload does not need the store at all. *)
Theorem uninitialised_pool_is_unavailable
    (ADMIN_IDS : gset Z) (slot_number_default order_num_default : option Z)
    (suffix : string -> string) (user_id : Z) (w : World) :
  db_pool w = None ->
  user_id ∈ ADMIN_IDS ->
  (signals (fst (get_posters w)) Unavailable /\ snd (get_posters w) = w)
  /\ (signals (fst (get_latest_poster w)) Unavailable
      /\ snd (get_latest_poster w) = w)
  /\ (forall poster_id,
        signals (fst (get_poster poster_id w)) Unavailable
        /\ snd (get_poster poster_id w) = w)
  /\ (signals (fst (get_stories w)) Unavailable /\ snd (get_stories w) = w)
  /\ (forall story,
        let r := create_story ADMIN_IDS slot_number_default story user_id w in
        signals (fst r) Unavailable /\ snd r = w)
  /\ (forall story_id story,
        let r := update_story ADMIN_IDS story_id story user_id w in
        signals (fst r) Unavailable /\ snd r = w)
  /\ (forall story_id,
        let r := delete_story ADMIN_IDS story_id user_id w in
        signals (fst r) Unavailable /\ snd r = w)
  /\ (forall s file_id caption,
        let r := create_story_in_slot ADMIN_IDS order_num_default user_id s
                   file_id caption w in
        (In s [1; 2; 3] -> signals (fst r) Unavailable /\ snd r = w)
        /\ (~ In s [1; 2; 3] -> signals (fst r) InvalidArgument /\ snd r = w))
  /\ (forall file_ uuid4,
        image_family (content_type file_) ->
        exists out,
          fst (upload_story_photo ADMIN_IDS suffix user_id file_ uuid4 w) = Ok out).
Proof.
  intros Hd Ha.
  unfold get_posters, get_latest_poster, get_poster, get_stories, create_story,
    update_story, delete_story, create_story_in_slot, upload_story_photo.
  rewrite (is_admin_true _ _ Ha), Hd. cbn [negb].
  do 7 (split; [repeat split|]).
  split.
  - intros s file_id caption. cbv zeta. split; intros Hs.
    + apply valid_slot in Hs. rewrite Hs. split; reflexivity.
    + destruct (existsb (Z.eqb s) [1; 2; 3]) eqn:E.
      * exfalso. apply Hs. apply valid_slot. exact E.
      * split; reflexivity.
  - intros file_ uuid4 Hi. apply image_family_accepted in Hi. rewrite Hi.
    eexists. reflexivity.
Qed.

(** ** Story Slot Manager: what a rotation keeps *)

Lemma nth_error_deactivate (s : Z) (rows : list Story.t) (i : nat) (r : Story.t) :
  nth_error rows i = Some r ->
  nth_error (sql_deactivate_slot s rows) i
  = Some (if in_active_slot s r then apply_assignment r (SetIsActive false) else r).
Proof.
  intros H. unfold sql_deactivate_slot. rewrite nth_error_map, H. reflexivity.
Qed.

(** X12: a rotation deletes nothing.  For an admin, a valid slot and an
    initialised pool the store receives two statements, the deactivation
    and then the insertion; the posters are untouched; the table grows by
    one row; and every earlier row stays at its place with all its columns
    but [is_active], which is switched off exactly for the rows of the
    rotated slot. *)
Theorem rotation_keeps_history
    (ADMIN_IDS : gset Z) (order_num_default : option Z) (user_id s : Z)
    (file_id : string) (caption : option string) (w : World) (d : DB) :
  user_id ∈ ADMIN_IDS ->
  In s [1; 2; 3] ->
  db_pool w = Some d ->
  exists d',
    db_pool (snd (create_story_in_slot ADMIN_IDS order_num_default user_id s
                    file_id caption w)) = Some d'
    /\ statements d'
       = (statements d
          ++ [DeactivateSlot s; InsertStoryInSlot file_id caption s])%list
    /\ posters d' = posters d
    /\ stories_id_seq d' = stories_id_seq d + 1
    /\ length (stories d') = S (length (stories d))
    /\ forall i r, nth_error (stories d) i = Some r ->
         exists r',
           nth_error (stories d') i = Some r'
           /\ Story.id r' = Story.id r
           /\ Story.file_id r' = Story.file_id r
           /\ Story.caption r' = Story.caption r
           /\ Story.slot_number r' = Story.slot_number r
           /\ Story.order_num r' = Story.order_num r
           /\ Story.created_at r' = Story.created_at r
           /\ Story.is_active r' = Story.is_active r && negb (in_slot s r).
Proof.
  intros Ha Hs Hd. unfold create_story_in_slot.
  rewrite (is_admin_true _ _ Ha). apply valid_slot in Hs. rewrite Hs, Hd.
  cbn [negb]. eexists. split; [reflexivity|].
  cbn [executed statements posters stories stories_id_seq].
  split; [rewrite <- app_assoc; reflexivity|].
  split; [reflexivity|]. split; [reflexivity|].
  split.
  - rewrite length_app. unfold sql_deactivate_slot. rewrite length_map.
    simpl. lia.
  - intros i r Hr.
    rewrite nth_error_app1
      by (unfold sql_deactivate_slot; rewrite length_map;
          apply nth_error_Some; congruence).
    rewrite (nth_error_deactivate s _ i r Hr).
    eexists. split; [reflexivity|].
    rewrite in_active_slot_split.
    destruct (in_slot s r), (Story.is_active r) eqn:E; simpl; rewrite ?E;
      repeat split.
Qed.

(** ** Upload intake: the photo is served back *)

Lemma app_inj_prefix (p a b : string) : p ++ a = p ++ b -> a = b.
Proof.
  induction p as [|c p IH]; simpl; intros H; [exact H|].
  inversion H. auto.
Qed.

Lemma append_length (a b : string) :
  String.length (a ++ b) = (String.length a + String.length b)%nat.
Proof. induction a as [|c a IH]; simpl; [reflexivity|]. rewrite IH. reflexivity. Qed.

Lemma long_name_is_plain (uuid4 extension : string) :
  String.length uuid4 = 36%nat ->
  String.eqb (uuid4 ++ extension) "." = false
  /\ String.eqb (uuid4 ++ extension) ".." = false.
Proof.
  intros H. split; apply String.eqb_neq; intros E;
    apply (f_equal String.length) in E; rewrite append_length, H in E;
    simpl in E; lia.
Qed.

(** X13: an accepted upload can be fetched back.  When
    [upload_story_photo], with an identifier of the 36 characters of a
    UUID, answers with a file name, [get_story_photo] of that name answers
    with the [FileResponse] of a path under which the disk holds the
    uploaded bytes, and the returned URL is that path behind a slash, the
    route of [get_story_photo] for the name. *)
Theorem uploaded_photo_is_served
    (ADMIN_IDS : gset Z) (suffix : string -> string)
    (user_id : Z) (file_ : UploadFile) (uuid4 : string) (w : World)
    (out : UploadOut.t) :
  String.length uuid4 = 36%nat ->
  fst (upload_story_photo ADMIN_IDS suffix user_id file_ uuid4 w) = Ok out ->
  let w' := snd (upload_story_photo ADMIN_IDS suffix user_id file_ uuid4 w) in
  let stored := "uploads/stories/" ++ UploadOut.filename out in
  fst (get_story_photo (UploadOut.filename out) w') = Ok {| path := stored |}
  /\ files w' !! stored = Some (file file_)
  /\ UploadOut.photo_url out = "/" ++ stored
  /\ UploadOut.success out = true.
Proof.
  intros Hlen. unfold upload_story_photo.
  destruct (negb (is_admin ADMIN_IDS user_id)); [discriminate|].
  destruct (negb (truthy (content_type file_))
            || negb (startswith (or_empty (content_type file_)) "image/"));
    [discriminate|].
  cbn [fst snd]. intros H. inversion H; subst out. clear H.
  cbv zeta. cbn [UploadOut.filename UploadOut.photo_url UploadOut.success].
  destruct (long_name_is_plain uuid4
              (suffix (or_else (filename file_) "image.jpg")) Hlen) as [E1 E2].
  set (name := uuid4 ++ suffix (or_else (filename file_) "image.jpg")) in *.
  change (upload_dir ++ "/" ++ name) with ("uploads/stories/" ++ name).
  assert (Hs : (<["uploads/stories/" ++ name := file file_]> (files w)
                : gmap string (list Byte.byte))
               !! ("uploads/stories/" ++ name) = Some (file file_))
    by apply lookup_insert_eq.
  split; [|split; [exact Hs|split; reflexivity]].
  unfold get_story_photo, story_photo_exists, story_photo_path, path_exists.
  rewrite E1, E2. cbn [files].
  change (upload_dir ++ "/" ++ name) with ("uploads/stories/" ++ name).
  rewrite lookup_insert_eq. reflexivity.
Qed.

(** ** Photo proxy: failures of the platform *)

(** X14: with a bot token, a failure on the way is an [InternalError] and
    ends the fetch: a resolve request that raises, or whose body is not
    JSON, gives a 500 with the text of the exception after that one
    request; an [ok] answer without a file path gives a 500 and no
    download; a download that raises gives a 500 with its text after the
    two requests.  Whatever the platform answers, the proxy returns the
    photo or signals [NotFound] or [InternalError]. *)
Theorem get_photo_failures
    (BOT_TOKEN : string) (http_get : string -> string + Response)
    (file_id : string) (w : World) :
  BOT_TOKEN <> "" ->
  let r := get_photo BOT_TOKEN http_get file_id w in
  let resolve := resolve_call BOT_TOKEN file_id in
  (forall e, http_get resolve = inl e ->
     fst r = http_error 500 e
     /\ requests (snd r) = (requests w ++ [resolve])%list)
  /\ (forall resp e, http_get resolve = inr resp -> json resp = inl e ->
        fst r = http_error 500 e
        /\ requests (snd r) = (requests w ++ [resolve])%list)
  /\ (forall resp result,
        http_get resolve = inr resp -> json resp = inr (true, result) ->
        result = None \/ result = Some None ->
        signals (fst r) InternalError
        /\ requests (snd r) = (requests w ++ [resolve])%list)
  /\ (forall resp file_path e,
        http_get resolve = inr resp ->
        json resp = inr (true, Some (Some file_path)) ->
        http_get (download_call BOT_TOKEN file_path) = inl e ->
        fst r = http_error 500 e
        /\ requests (snd r)
           = (requests w ++ [resolve; download_call BOT_TOKEN file_path])%list)
  /\ ((exists photo, fst r = Ok photo)
      \/ signals (fst r) NotFound \/ signals (fst r) InternalError).
Proof.
  intros Hne r resolve. subst r resolve. unfold get_photo.
  fold (resolve_call BOT_TOKEN file_id).
  apply String.eqb_neq in Hne. rewrite Hne.
  split; [|split; [|split; [|split]]].
  - intros e He. rewrite He. split; reflexivity.
  - intros resp e Hr Hj. rewrite Hr, Hj. split; reflexivity.
  - intros resp result Hr Hj [->| ->]; rewrite Hr, Hj; split; reflexivity.
  - intros resp file_path e Hr Hj Hd. rewrite Hr, Hj. cbn [negb].
    fold (download_call BOT_TOKEN file_path). rewrite Hd.
    split; [reflexivity|]. simpl. rewrite <- app_assoc. reflexivity.
  - destruct (http_get (resolve_call BOT_TOKEN file_id)) as [e|resp];
      [right; right; reflexivity|].
    destruct (json resp) as [e|[[|] [[file_path|]|]]];
      try (right; right; reflexivity); try (right; left; reflexivity).
    cbn [negb].
    destruct (http_get _) as [e|photo]; [right; right; reflexivity|].
    destruct (negb (resp_status_code photo =? 200));
      [right; left; reflexivity|left; eexists; reflexivity].
Qed.

(** ** Story ids *)

Lemma ids_below_append (rows : list Story.t) (seq : Z) (row : Story.t) :
  ids_below rows seq -> Story.id row = seq ->
  ids_below (rows ++ [row]) (seq + 1).
Proof.
  intros [Hnd Hlt] Hid. split.
  - rewrite map_app. simpl. rewrite Hid. clear Hid.
    induction rows as [|x rows IH]; simpl.
    + constructor; [intros []|constructor].
    + inversion Hnd as [|? ? Hx Hnd']; subst. constructor.
      * rewrite in_app_iff. intros [H|[H|[]]]; [exact (Hx H)|].
        specialize (Hlt x (or_introl eq_refl)). lia.
      * apply IH; [exact Hnd'|]. intros r Hr. apply Hlt. right. exact Hr.
  - intros r Hr. apply in_app_or in Hr. destruct Hr as [Hr|[<-|[]]].
    + specialize (Hlt r Hr). lia.
    + lia.
Qed.

Lemma ids_below_map (f : Story.t -> Story.t) (rows : list Story.t) (seq : Z) :
  (forall r, Story.id (f r) = Story.id r) ->
  ids_below rows seq -> ids_below (map f rows) seq.
Proof.
  intros Hf [Hnd Hlt]. split.
  - rewrite map_map. rewrite (map_ext _ Story.id Hf). exact Hnd.
  - intros r Hr. apply in_map_iff in Hr. destruct Hr as (x & <- & Hx).
    rewrite Hf. apply Hlt. exact Hx.
Qed.

Lemma ids_below_filter (p : Story.t -> bool) (rows : list Story.t) (seq : Z) :
  ids_below rows seq -> ids_below (List.filter p rows) seq.
Proof.
  intros [Hnd Hlt]. split.
  - clear Hlt. induction rows as [|x rows IH]; simpl; [constructor|].
    inversion Hnd as [|? ? Hx Hnd']; subst.
    destruct (p x); simpl; [|auto]. constructor; [|auto].
    intros H. apply Hx. apply in_map_iff in H. destruct H as (y & E & Hy).
    apply filter_In in Hy. apply in_map_iff. exists y. tauto.
  - intros r Hr. apply filter_In in Hr. apply Hlt. apply Hr.
Qed.

Lemma ids_below_mono (rows : list Story.t) (seq : Z) :
  ids_below rows seq -> ids_below rows (seq + 1).
Proof. intros [Hnd Hlt]. split; [exact Hnd|]. intros r Hr. specialize (Hlt r Hr). lia. Qed.

Lemma assignments_keep_id (updates : list Assignment) (r : Story.t) :
  Story.id (fold_left apply_assignment updates r) = Story.id r.
Proof.
  revert r. induction updates as [|a us IH]; intros r; [reflexivity|].
  simpl. rewrite IH. destruct a; reflexivity.
Qed.

Lemma fresh_ids_with_db (w : World) (d : DB) :
  ids_below (stories d) (stories_id_seq d) -> fresh_ids (with_db d w).
Proof. intros H. exact H. Qed.

Lemma fresh_ids_serve
    (ADMIN_IDS : gset Z) (slot_number_default order_num_default : option Z)
    (w : World) (req : Request) :
  fresh_ids w ->
  fresh_ids (serve ADMIN_IDS slot_number_default order_num_default w req).
Proof.
  intros Hw. destruct req as [story u|k p u|k u|u s ref cap]; simpl.
  - unfold create_story. destruct (negb _); [exact Hw|].
    unfold fresh_ids in Hw. destruct (db_pool w) as [d|] eqn:Hd;
      [|cbn [snd]; unfold fresh_ids; rewrite Hd; exact I].
    cbn [snd]. apply fresh_ids_with_db. cbn [executed stories stories_id_seq].
    apply ids_below_append; [exact Hw|reflexivity].
  - unfold update_story. destruct (negb _); [exact Hw|].
    unfold fresh_ids in Hw. destruct (db_pool w) as [d|] eqn:Hd;
      [|cbn [snd]; unfold fresh_ids; rewrite Hd; exact I].
    destruct (updates_of p) as [|a us];
      [cbn [snd]; unfold fresh_ids; rewrite Hd; exact Hw|].
    assert (H : ids_below (sql_update (a :: us) k (stories d)) (stories_id_seq d)).
    { apply ids_below_map; [|exact Hw]. intros r.
      destruct (Story.id r =? k); [apply assignments_keep_id|reflexivity]. }
    destruct (find _ _); cbn [snd]; apply fresh_ids_with_db; exact H.
  - unfold delete_story. destruct (negb _); [exact Hw|].
    unfold fresh_ids in Hw. destruct (db_pool w) as [d|] eqn:Hd;
      [|cbn [snd]; unfold fresh_ids; rewrite Hd; exact I].
    assert (H : ids_below (sql_delete k (stories d)) (stories_id_seq d))
      by (apply ids_below_filter; exact Hw).
    destruct (_ =? 0)%nat; cbn [snd]; apply fresh_ids_with_db; exact H.
  - unfold create_story_in_slot. destruct (negb _); [exact Hw|].
    destruct (negb _); [exact Hw|].
    unfold fresh_ids in Hw. destruct (db_pool w) as [d|] eqn:Hd;
      [|cbn [snd]; unfold fresh_ids; rewrite Hd; exact I].
    cbn [snd]. apply fresh_ids_with_db. cbn [executed stories stories_id_seq].
    apply ids_below_append; [|reflexivity].
    apply ids_below_map; [|exact Hw]. intros r.
    destruct (in_active_slot s r); reflexivity.
Qed.

Lemma unique_id_count (rows : list Story.t) (k : Z) :
  List.NoDup (map Story.id rows) ->
  (length (List.filter (fun r => (Story.id r =? k)%Z) rows) <= 1)%nat.
Proof.
  induction rows as [|x rows IH]; simpl; intros Hnd; [lia|].
  inversion Hnd as [|? ? Hx Hnd']; subst. specialize (IH Hnd').
  destruct (Z.eqb_spec (Story.id x) k) as [E|_]; [|exact IH].
  assert (H0 : List.filter (fun r => Story.id r =? k) rows = []).
  { destruct (List.filter _ rows) as [|y l] eqn:F; [reflexivity|].
    exfalso. assert (Hy : In y (List.filter (fun r => Story.id r =? k) rows))
      by (rewrite F; left; reflexivity).
    apply filter_In in Hy. destruct Hy as [Hy Ek]. apply Z.eqb_eq in Ek.
    apply Hx. rewrite E, <- Ek. apply in_map. exact Hy. }
  rewrite H0. simpl. lia.
Qed.

(** X15: in every world reached from the fresh one by write requests, the
    ids of the stories are pairwise distinct and below the serial; so an
    update or a deletion by id touches at most one row. *)
Theorem story_ids_stay_fresh
    (ADMIN_IDS : gset Z) (slot_number_default order_num_default : option Z)
    (w : World) :
  reachable ADMIN_IDS slot_number_default order_num_default w ->
  fresh_ids w
  /\ forall story_id,
       (length (List.filter (fun r => (Story.id r =? story_id)%Z)
                  (world_stories w)) <= 1)%nat.
Proof.
  intros Hr.
  assert (Hf : fresh_ids w).
  { induction Hr as [|w req _ IH].
    - split; [constructor|intros r []].
    - apply fresh_ids_serve. exact IH. }
  split; [exact Hf|]. intros k. unfold fresh_ids in Hf. unfold world_stories.
  destruct (db_pool w) as [d|]; [|simpl; lia].
  apply unique_id_count. apply Hf.
Qed.

(** ** Admin Gate: who is refused *)

Ltac split_cases :=
  repeat match goal with
         | |- context [if ?b then _ else _] => destruct b
         | |- context [match ?x with Some _ => _ | None => _ end] => destruct x
         | |- context [match ?x with [] => _ | _ :: _ => _ end] => destruct x
         end.

(** X16: the mutating handlers signal [PermissionDenied] to the callers
    that [check_admin_endpoint] reports as no admin, and to nobody else:
    an admin may get another error, never this one. *)
Theorem permission_denied_iff_not_admin
    (ADMIN_IDS : gset Z) (slot_number_default order_num_default : option Z)
    (suffix : string -> string) (user_id : Z) (w : World) :
  (forall story,
     signals (fst (create_story ADMIN_IDS slot_number_default story user_id w))
       PermissionDenied
     <-> check_admin_endpoint ADMIN_IDS user_id = false)
  /\ (forall story_id story,
        signals (fst (update_story ADMIN_IDS story_id story user_id w))
          PermissionDenied
        <-> check_admin_endpoint ADMIN_IDS user_id = false)
  /\ (forall story_id,
        signals (fst (delete_story ADMIN_IDS story_id user_id w)) PermissionDenied
        <-> check_admin_endpoint ADMIN_IDS user_id = false)
  /\ (forall s file_id caption,
        signals (fst (create_story_in_slot ADMIN_IDS order_num_default user_id s
                        file_id caption w)) PermissionDenied
        <-> check_admin_endpoint ADMIN_IDS user_id = false)
  /\ (forall file_ uuid4,
        signals (fst (upload_story_photo ADMIN_IDS suffix user_id file_ uuid4 w))
          PermissionDenied
        <-> check_admin_endpoint ADMIN_IDS user_id = false).
Proof.
  unfold check_admin_endpoint, create_story, update_story, delete_story,
    create_story_in_slot, upload_story_photo.
  destruct (is_admin ADMIN_IDS user_id); cbn [negb].
  - repeat split; intros; try discriminate; exfalso;
      revert H; split_cases; simpl; try discriminate; try contradiction.
  - repeat split; intros; reflexivity.
Qed.

(** ** Story Slot Manager: the answer of a rotation and the listing *)

Lemma slot_listing_after_rotation (s : Z) (d d' : DB) (row : Story.t) :
  stories d' = (sql_deactivate_slot s (stories d) ++ [row])%list ->
  Story.slot_number row = Some s -> Story.is_active row = true ->
  List.filter (in_slot s) (active_stories d') = [row].
Proof.
  intros S Hs Ha. apply Permutation_length_1_inv.
  unfold active_stories.
  eapply perm_trans; [|apply filter_perm, Permutation_sym, order_by_perm].
  rewrite S, active_after_rotation by exact Ha.
  rewrite List.filter_app, filter_complement_nil.
  cbn [List.filter app]. unfold in_slot. rewrite Hs, Z.eqb_refl.
  apply Permutation_refl.
Qed.

(** X17: the answer of a rotation describes the story that the listing
    then shows in the slot.  For an admin, a valid slot and an initialised
    pool, the answer is an active story of that slot with the given
    reference and caption and the serial's next number as its id, and the
    one story of the slot in the following listing has this id, this
    caption and the photo URL of this reference. *)
Theorem rotation_answer_is_listed
    (ADMIN_IDS : gset Z) (order_num_default : option Z) (user_id s : Z)
    (file_id : string) (caption : option string) (w : World) (d : DB) :
  user_id ∈ ADMIN_IDS ->
  In s [1; 2; 3] ->
  db_pool w = Some d ->
  let r := create_story_in_slot ADMIN_IDS order_num_default user_id s file_id
             caption w in
  exists out views view,
    fst r = Ok out
    /\ SlotOut.id out = stories_id_seq d
    /\ SlotOut.slot_number out = Some s
    /\ SlotOut.file_id out = file_id
    /\ SlotOut.caption out = caption
    /\ SlotOut.is_active out = true
    /\ fst (get_stories (snd r)) = Ok views
    /\ List.filter (view_in_slot s) views = [view]
    /\ StoryView.id view = SlotOut.id out
    /\ StoryView.caption view = caption
    /\ StoryView.photo_url view = story_photo_url file_id.
Proof.
  intros Ha Hs Hd r. subst r.
  destruct (create_story_in_slot_ok ADMIN_IDS order_num_default user_id s
              file_id caption w d Ha Hs Hd) as (d' & E & S).
  rewrite E. cbn [fst snd].
  rewrite (get_stories_ok (with_db d' w) d' eq_refl).
  eexists. eexists. eexists.
  split; [reflexivity|].
  do 5 (split; [reflexivity|]).
  split; [reflexivity|].
  rewrite views_in_slot.
  rewrite (slot_listing_after_rotation s d d' _ S eq_refl eq_refl).
  repeat split.
Qed.

(** ** Listing and lookup *)

(** X18: with unique poster ids, every entry of the listing of
    [get_posters] can be fetched by its id: [get_poster] returns an active
    row whose view is that entry. *)
Theorem listed_poster_is_found (w : World) (d : DB) :
  db_pool w = Some d ->
  List.NoDup (map Poster.id (posters d)) ->
  forall views view,
    fst (get_posters w) = Ok views -> In view views ->
    exists row,
      fst (get_poster (PosterView.id view) w) = Ok row
      /\ poster_view row = view
      /\ Poster.is_active row = true.
Proof.
  intros Hd Hnd views view Hv Hin.
  unfold get_posters in Hv. rewrite Hd in Hv. simpl in Hv.
  inversion Hv; subst views. clear Hv.
  apply in_map_iff in Hin. destruct Hin as (row & <- & Hrow).
  apply active_posters_In in Hrow. destruct Hrow as [Hrow Hact].
  exists row. unfold get_poster. rewrite Hd.
  cbn [poster_view PosterView.id].
  rewrite (find_by_unique_id (posters d) row Hnd Hrow).
  repeat split. exact Hact.
Qed.

Lemma delete_story_ok
    (ADMIN_IDS : gset Z) (story_id user_id : Z) (w : World) (d : DB) :
  user_id ∈ ADMIN_IDS -> db_pool w = Some d ->
  exists d',
    snd (delete_story ADMIN_IDS story_id user_id w) = with_db d' w
    /\ stories d' = sql_delete story_id (stories d).
Proof.
  intros Ha Hd. unfold delete_story.
  rewrite (is_admin_true _ _ Ha), Hd. cbn [negb].
  exists (executed (DeleteStory story_id) (sql_delete story_id (stories d))
            (stories_id_seq d) d).
  split; [|reflexivity]. destruct (_ =? 0)%nat; reflexivity.
Qed.

(** X19: a deletion takes the story out of the listing and nothing else:
    the listing that follows holds exactly the views listed before whose id
    is another one. *)
Theorem deleted_story_is_unlisted
    (ADMIN_IDS : gset Z) (story_id user_id : Z) (w : World) (d : DB) :
  user_id ∈ ADMIN_IDS ->
  db_pool w = Some d ->
  let w' := snd (delete_story ADMIN_IDS story_id user_id w) in
  exists views views',
    fst (get_stories w) = Ok views
    /\ fst (get_stories w') = Ok views'
    /\ forall view, In view views' <->
         In view views /\ StoryView.id view <> story_id.
Proof.
  intros Ha Hd. cbv zeta.
  destruct (delete_story_ok ADMIN_IDS story_id user_id w d Ha Hd)
    as (d1 & E1 & S1).
  rewrite E1.
  rewrite (get_stories_ok w d Hd), (get_stories_ok (with_db d1 w) d1 eq_refl).
  eexists. eexists. split; [reflexivity|]. split; [reflexivity|].
  intros view. unfold active_stories. rewrite !in_map_iff.
  rewrite S1. unfold sql_delete. split.
  - intros (r & <- & Hr). apply order_by_In, filter_In in Hr.
    destruct Hr as [Hin Hact]. apply filter_In in Hin.
    destruct Hin as [Hin Hid]. apply negb_true_iff, Z.eqb_neq in Hid.
    split; [|exact Hid].
    exists r. split; [reflexivity|].
    apply order_by_In, filter_In. split; assumption.
  - intros ((r & <- & Hr) & Hid). apply order_by_In, filter_In in Hr.
    destruct Hr as [Hin Hact]. cbn [story_view StoryView.id] in Hid.
    exists r. split; [reflexivity|].
    apply order_by_In, filter_In. split; [|exact Hact].
    apply filter_In. split; [exact Hin|].
    apply negb_true_iff, Z.eqb_neq. exact Hid.
Qed.

(** ** The listing under the slot invariant *)

Lemma in_slot_of_active (s : Z) (rows : list Story.t) :
  List.filter (in_slot s) (List.filter Story.is_active rows)
  = active_in_slot s rows.
Proof.
  unfold active_in_slot. induction rows as [|r rows IH]; [reflexivity|].
  cbn [List.filter]. rewrite in_active_slot_split.
  destruct (Story.is_active r); cbn [List.filter];
    destruct (in_slot s r); cbn [andb]; rewrite IH; reflexivity.
Qed.

Lemma active_rows_by_slot (rows : list Story.t) :
  active_in_slots rows ->
  length (List.filter Story.is_active rows)
  = (length (active_in_slot 1 rows) + length (active_in_slot 2 rows)
     + length (active_in_slot 3 rows))%nat.
Proof.
  unfold active_in_slot.
  induction rows as [|r rows IH]; intros H; [reflexivity|].
  assert (IH' := IH (fun x Hx => H x (or_intror Hx))). clear IH.
  assert (Hr := H r (or_introl eq_refl)). clear H.
  cbn [List.filter]. rewrite !in_active_slot_split.
  destruct (Story.is_active r).
  - destruct (Hr eq_refl) as (s & E & Hs). unfold in_slot. rewrite E.
    destruct Hs as [<-|[<-|[<-|[]]]]; simpl; rewrite IH'; lia.
  - rewrite !andb_false_r. exact IH'.
Qed.

(** X20: when the slot invariant holds and every active story sits in one
    of the three slots, the listing holds at most three stories and at most
    one story of any slot number. *)
Theorem listing_within_three_slots (w : World) (d : DB) :
  db_pool w = Some d ->
  slot_invariant (stories d) ->
  active_in_slots (stories d) ->
  exists views,
    fst (get_stories w) = Ok views
    /\ (length views <= 3)%nat
    /\ forall s, (length (List.filter (view_in_slot s) views) <= 1)%nat.
Proof.
  intros Hd Hinv Hact. rewrite (get_stories_ok w d Hd).
  eexists. split; [reflexivity|]. split.
  - rewrite length_map. unfold active_stories.
    rewrite (Permutation_length (order_by_perm slot_number_asc _)).
    rewrite (active_rows_by_slot _ Hact).
    pose proof (Hinv 1 (or_introl eq_refl)).
    pose proof (Hinv 2 (or_intror (or_introl eq_refl))).
    pose proof (Hinv 3 (or_intror (or_intror (or_introl eq_refl)))).
    lia.
  - intros s. rewrite views_in_slot, length_map. unfold active_stories.
    rewrite (Permutation_length
               (filter_perm (in_slot s) _ _ (order_by_perm slot_number_asc _))).
    rewrite in_slot_of_active.
    destruct (in_dec Z.eq_dec s [1; 2; 3]) as [Hs|Hs]; [apply Hinv; exact Hs|].
    assert (E : active_in_slot s (stories d) = []).
    { unfold active_in_slot.
      destruct (List.filter (in_active_slot s) (stories d)) as [|r l] eqn:F;
        [reflexivity|]. exfalso.
      assert (Hr : In r (List.filter (in_active_slot s) (stories d)))
        by (rewrite F; left; reflexivity).
      apply filter_In in Hr. destruct Hr as [Hr Hs'].
      rewrite in_active_slot_split in Hs'. apply andb_true_iff in Hs'.
      destruct Hs' as [Hin Ha].
      destruct (Hact r Hr Ha) as (s' & E' & Hs3).
      unfold in_slot in Hin. rewrite E' in Hin. apply Z.eqb_eq in Hin.
      subst s'. contradiction. }
    rewrite E. simpl. lia.
Qed.

(** ** Further sample runs *)

Lemma reactivated_world_reachable :
  reachable default_admins None None reactivated_world.
Proof.
  unfold reactivated_world. cbv [reactivation fold_left].
  do 3 apply reachable_serve. apply reachable_fresh.
Qed.

Lemma get_posters_newest_first_witness :
  exists views,
    fst (get_posters poster_world) = Ok views
    /\ StronglySorted newest_first views.
Proof.
  destruct (get_posters_newest_first poster_world _ eq_refl)
    as (views & E & _ & S).
  exists views. split; assumption.
Defined.

Lemma get_latest_poster_is_newest_witness :
  exists view, fst (get_latest_poster poster_world) = Ok view.
Proof.
  destruct (get_latest_poster_is_newest poster_world _ eq_refl) as (_ & H & _).
  apply H. exists summer_poster. split; [left; reflexivity|reflexivity].
Defined.

Lemma get_stories_by_slot_witness :
  exists views,
    fst (get_stories rotated_world) = Ok views
    /\ StronglySorted by_slot views.
Proof.
  destruct (get_stories_by_slot rotated_world _ eq_refl)
    as (views & E & _ & S).
  exists views. split; assumption.
Defined.

Lemma create_story_appends_witness :
  exists out,
    fst (create_story default_admins None flyer_story 825042510 fresh_world)
    = Ok out
    /\ StoryOut.id out = 1 /\ StoryOut.is_active out = true.
Proof.
  destruct (create_story_appends default_admins None flyer_story 825042510
              fresh_world _ default_admin_listed eq_refl)
    as (out & row & E & _ & _ & Hid & _ & _ & _ & Hact & _).
  exists out. repeat split; assumption.
Defined.

Lemma delete_story_removes_witness :
  fst (delete_story default_admins 1 825042510 rotated_world)
  = Ok "Story deleted successfully".
Proof.
  destruct (delete_story_removes default_admins 1 825042510 rotated_world _
              default_admin_listed eq_refl) as (_ & _ & H & _).
  apply H. eexists. split; [left; reflexivity|reflexivity].
Defined.

Lemma update_story_idempotent_witness :
  world_stories
    (snd (update_story default_admins 1 order_patch 825042510
            (snd (update_story default_admins 1 order_patch 825042510
                    rotated_world))))
  = world_stories
      (snd (update_story default_admins 1 order_patch 825042510 rotated_world)).
Proof.
  apply (update_story_idempotent default_admins 1 825042510 order_patch
           rotated_world _ default_admin_listed eq_refl).
Defined.

Lemma deactivated_story_is_unlisted_witness :
  exists views',
    fst (get_stories
           (snd (update_story default_admins 1 off_patch 825042510 rotated_world)))
    = Ok views'
    /\ forall view, In view views' -> StoryView.id view <> 1.
Proof.
  destruct (deactivated_story_is_unlisted default_admins 1 825042510 off_patch
              rotated_world _ default_admin_listed eq_refl eq_refl)
    as (views & views' & _ & E & H).
  exists views'. split; [exact E|]. intros view Hv. apply H. exact Hv.
Defined.

Lemma uninitialised_pool_is_unavailable_witness :
  signals (fst (get_stories cold_world)) Unavailable
  /\ snd (get_stories cold_world) = cold_world.
Proof.
  destruct (uninitialised_pool_is_unavailable default_admins None None
              plain_suffix 825042510 cold_world eq_refl default_admin_listed)
    as (_ & _ & _ & H & _).
  exact H.
Defined.

Lemma rotation_keeps_history_witness :
  exists d',
    db_pool (snd (create_story_in_slot default_admins None 825042510 2
                    "/uploads/stories/b.jpg" None rotated_world)) = Some d'
    /\ length (stories d') = 2%nat.
Proof.
  destruct (rotation_keeps_history default_admins None 825042510 2
              "/uploads/stories/b.jpg" None rotated_world _
              default_admin_listed (or_intror (or_introl eq_refl)) eq_refl)
    as (d' & E & _ & _ & _ & L & _).
  exists d'. split; [exact E|exact L].
Defined.

Lemma uploaded_photo_is_served_witness :
  fst (get_story_photo "3f2b8c1e-7d4a-4e0b-9a6f-5c1d2e3f4a5b.png"
         (snd (upload_story_photo default_admins plain_suffix 825042510
                 png_upload drawn_uuid fresh_world)))
  = Ok {| path := "uploads/stories/3f2b8c1e-7d4a-4e0b-9a6f-5c1d2e3f4a5b.png" |}
  /\ files (snd (upload_story_photo default_admins plain_suffix 825042510
                   png_upload drawn_uuid fresh_world))
     !! "uploads/stories/3f2b8c1e-7d4a-4e0b-9a6f-5c1d2e3f4a5b.png"
     = Some (file png_upload).
Proof.
  destruct (uploaded_photo_is_served default_admins plain_suffix 825042510
              png_upload drawn_uuid fresh_world _ eq_refl eq_refl)
    as (H1 & H2 & _).
  split; [exact H1|exact H2].
Defined.

Lemma get_photo_failures_witness :
  fst (get_photo sample_token offline "AgACAgIAAxkBAAIB" fresh_world)
  = http_error 500 "All connection attempts failed".
Proof.
  destruct (get_photo_failures sample_token offline "AgACAgIAAxkBAAIB"
              fresh_world) as (H & _).
  - discriminate.
  - apply (H "All connection attempts failed"). reflexivity.
Defined.

Lemma story_ids_stay_fresh_witness : fresh_ids reactivated_world.
Proof.
  apply (story_ids_stay_fresh default_admins None None reactivated_world
           reactivated_world_reachable).
Defined.

Lemma rotation_answer_is_listed_witness :
  exists out,
    fst (create_story_in_slot default_admins None 825042510 3
           "/uploads/stories/x.jpg" (Some "Saturday") fresh_world) = Ok out
    /\ SlotOut.id out = 1 /\ SlotOut.slot_number out = Some 3.
Proof.
  destruct (rotation_answer_is_listed default_admins None 825042510 3
              "/uploads/stories/x.jpg" (Some "Saturday") fresh_world _
              default_admin_listed
              (or_intror (or_intror (or_introl eq_refl))) eq_refl)
    as (out & _ & _ & E & Hid & Hs & _).
  exists out. repeat split; assumption.
Defined.

Lemma listed_poster_is_found_witness :
  exists row,
    fst (get_poster 1 poster_world) = Ok row
    /\ poster_view row = poster_view summer_poster.
Proof.
  destruct (listed_poster_is_found poster_world _ eq_refl) with
    (views := [poster_view summer_poster]) (view := poster_view summer_poster)
    as (row & E & V & _).
  - repeat constructor; simpl; lia.
  - reflexivity.
  - left. reflexivity.
  - exists row. split; assumption.
Defined.

Lemma deleted_story_is_unlisted_witness :
  exists views',
    fst (get_stories (snd (delete_story default_admins 1 825042510 rotated_world)))
    = Ok views'
    /\ forall view, In view views' -> StoryView.id view <> 1.
Proof.
  destruct (deleted_story_is_unlisted default_admins 1 825042510 rotated_world
              _ default_admin_listed eq_refl)
    as (views & views' & _ & E & H).
  exists views'. split; [exact E|]. intros view Hv. apply H. exact Hv.
Defined.

Lemma listing_within_three_slots_witness :
  exists views,
    fst (get_stories rotated_world) = Ok views /\ (length views <= 3)%nat.
Proof.
  destruct (listing_within_three_slots rotated_world _ eq_refl)
    as (views & E & L & _).
  - intros s [<-|[<-|[<-|[]]]]; vm_compute; lia.
  - intros r [<-|[]] _. exists 2. split; [reflexivity|simpl; auto].
  - exists views. split; assumption.
Defined.
